(** * Address batch service: normalization, batch lifecycle and requeue

    A shallow embedding of the address validation / recognition services
    (app/services/address_validation.py, app/services/address_recognition.py),
    their schemas (app/schemas/addresses.py), the requeue endpoint
    (app/api/v1/endpoints/addresses.py) and the worker job
    (app/workers/jobs.py).

    Modelling conventions.
    - A Python value of type [Any] coming from JSON is a [value]; a
      [dict[str, Any]] is a [gmap string value] (Python compares dicts
      extensionally, as [gmap] does).
    - Python [str] is modelled on the ASCII repertoire: [strip] removes the
      ASCII characters for which [str.isspace] holds, [upper]/[lower] map the
      26 letters, and every other character is left as it is.
    - A SQLAlchemy session is a pair of stores (what is committed, what the
      session has pending) together with the history of committed snapshots;
      [commit] publishes the pending store, [rollback] discards it. *)

From Stdlib Require Import ZArith String Ascii List Bool Lia.
From stdpp Require Import base option list strings gmap fin_maps.

Local Open Scope string_scope.
Local Open Scope list_scope.

(** ** Python strings *)

Module PyStr.

(** [str.isspace] on one ASCII character: TAB, LF, VT, FF, CR,
    FS, GS, RS, US and SPACE. *)
Definition isspace (c : ascii) : bool :=
  let n := nat_of_ascii c in
  ((9 <=? n)%nat && (n <=? 13)%nat) || ((28 <=? n)%nat && (n <=? 32)%nat).

Definition upper_char (c : ascii) : ascii :=
  let n := nat_of_ascii c in
  if ((97 <=? n)%nat && (n <=? 122)%nat) then ascii_of_nat (n - 32) else c.

Definition lower_char (c : ascii) : ascii :=
  let n := nat_of_ascii c in
  if ((65 <=? n)%nat && (n <=? 90)%nat) then ascii_of_nat (n + 32) else c.

Fixpoint map_chars (f : ascii -> ascii) (s : string) : string :=
  match s with
  | EmptyString => EmptyString
  | String c s' => String (f c) (map_chars f s')
  end.

(** [s.upper()] and [s.lower()] *)
Definition upper (s : string) : string := map_chars upper_char s.
Definition lower (s : string) : string := map_chars lower_char s.

(** [s.lstrip()] *)
Fixpoint lstrip (s : string) : string :=
  match s with
  | EmptyString => EmptyString
  | String c s' => if isspace c then lstrip s' else s
  end.

(** [s.rstrip()] *)
Fixpoint rstrip (s : string) : string :=
  match s with
  | EmptyString => EmptyString
  | String c s' =>
      match rstrip s' with
      | EmptyString => if isspace c then EmptyString else String c EmptyString
      | r => String c r
      end
  end.

(** [s.strip()] *)
Definition strip (s : string) : string := rstrip (lstrip s).

End PyStr.

(** A string that does not begin with white space. *)
Definition no_leading_space (s : string) : Prop :=
  match s with
  | EmptyString => True
  | String c _ => PyStr.isspace c = false
  end.

(** ** Python values *)

(** What a JSON column or a [model_dump()] can hold. *)
#[local] Unset Elimination Schemes.
Inductive value : Type :=
| VNone
| VBool (b : bool)
| VInt (z : Z)
| VStr (s : string)
| VList (l : list value)
| VDict (d : gmap string value).
#[local] Set Elimination Schemes.

(** [dict[str, Any]] *)
Abbreviation dict := (gmap string value).

(** [isinstance(v, str)] *)
Definition is_str (v : value) : bool :=
  match v with VStr _ => true | _ => false end.

(** [v in {"unknown", "yes", "no"}] *)
Definition in_indicator_set (v : string) : bool :=
  bool_decide (v = "unknown") || bool_decide (v = "yes") || bool_decide (v = "no").

Definition ARI : string := "address_residential_indicator".

(** The value the code computes from a string indicator: trimmed,
    lower-cased, and replaced by ["unknown"] outside the closed set. *)
Definition canonical_indicator (s : string) : string :=
  let v := PyStr.lower (PyStr.strip s) in
  if in_indicator_set v then v else "unknown".

(** ** Schemas (app/schemas/addresses.py) *)

(** [postal_code: str | int | None] *)
Inductive postal : Type :=
| PostalNone
| PostalStr (s : string)
| PostalInt (z : Z).

Record AddressIn : Type := {
  name : option string;
  phone : option string;
  email : option string;
  company_name : option string;
  address_line1 : string;
  address_line2 : option string;
  address_line3 : option string;
  city_locality : string;
  state_province : string;
  postal_code : postal;
  country_code : string;
  address_residential_indicator : string
}.

(** [class AddressOut(AddressIn): pass] *)
Abbreviation AddressOut := AddressIn.

(** [AddressIn.normalize_residential_indicator], the [mode="before"]
    validator of the field. *)
Definition normalize_residential_indicator (v : value) : string :=
  match v with
  | VNone => "unknown"
  | VStr s =>
      let vv := PyStr.lower (PyStr.strip s) in
      if in_indicator_set vv then vv else "unknown"
  | _ => "unknown"
  end.

(** Field validators of pydantic (lax mode, the default): a missing optional
    field takes its default, a [str] field accepts only a string, the union
    [str | int | None] also accepts an integer (a [bool] as its integer). *)
Definition opt_str_field (d : dict) (k : string) : option (option string) :=
  match d !! k with
  | None | Some VNone => Some None
  | Some (VStr s) => Some (Some s)
  | Some _ => None
  end.

Definition req_str_field (d : dict) (k : string) (min_length : nat)
    (max_length : option nat) : option string :=
  match d !! k with
  | Some (VStr s) =>
      if (min_length <=? String.length s)%nat
         && (match max_length with
             | Some m => (String.length s <=? m)%nat
             | None => true
             end)
      then Some s else None
  | _ => None
  end.

Definition postal_field (d : dict) (k : string) : option postal :=
  match d !! k with
  | None | Some VNone => Some PostalNone
  | Some (VStr s) => Some (PostalStr s)
  | Some (VInt z) => Some (PostalInt z)
  | Some (VBool b) => Some (PostalInt (if b then 1 else 0))
  | Some _ => None
  end.

Definition indicator_field (d : dict) (k : string) : string :=
  match d !! k with
  | None => "unknown"
  | Some v => normalize_residential_indicator v
  end.

(** [AddressIn.model_validate(obj)] (and [AddressOut.model_validate]);
    [None] stands for the raised [ValidationError]. Keys that are not fields
    are ignored. *)
Definition AddressIn_model_validate (obj : value) : option AddressIn :=
  match obj with
  | VDict d =>
      name ← opt_str_field d "name";
      phone ← opt_str_field d "phone";
      email ← opt_str_field d "email";
      company_name ← opt_str_field d "company_name";
      address_line1 ← req_str_field d "address_line1" 1 None;
      address_line2 ← opt_str_field d "address_line2";
      address_line3 ← opt_str_field d "address_line3";
      city_locality ← req_str_field d "city_locality" 1 None;
      state_province ← req_str_field d "state_province" 1 None;
      postal_code ← postal_field d "postal_code";
      country_code ← req_str_field d "country_code" 2 (Some 2%nat);
      Some {| name := name; phone := phone; email := email;
              company_name := company_name;
              address_line1 := address_line1;
              address_line2 := address_line2;
              address_line3 := address_line3;
              city_locality := city_locality;
              state_province := state_province;
              postal_code := postal_code;
              country_code := country_code;
              address_residential_indicator := indicator_field d ARI |}
  | _ => None
  end.

Arguments AddressIn_model_validate : simpl never.

Definition dump_opt_str (o : option string) : value :=
  match o with Some s => VStr s | None => VNone end.

Definition dump_postal (p : postal) : value :=
  match p with
  | PostalNone => VNone
  | PostalStr s => VStr s
  | PostalInt z => VInt z
  end.

(** [addr.model_dump()] *)
Definition model_dump (a : AddressIn) : dict :=
  <["name" := dump_opt_str (name a)]>
  (<["phone" := dump_opt_str (phone a)]>
  (<["email" := dump_opt_str (email a)]>
  (<["company_name" := dump_opt_str (company_name a)]>
  (<["address_line1" := VStr (address_line1 a)]>
  (<["address_line2" := dump_opt_str (address_line2 a)]>
  (<["address_line3" := dump_opt_str (address_line3 a)]>
  (<["city_locality" := VStr (city_locality a)]>
  (<["state_province" := VStr (state_province a)]>
  (<["postal_code" := dump_postal (postal_code a)]>
  (<["country_code" := VStr (country_code a)]>
  (<[ARI := VStr (address_residential_indicator a)]> ∅))))))))))).

(** ** Normalization *)

Module AddressValidationNormalize.

(** Body of the loop of [AddressValidationService._normalize]: the value
    stored under [key]. *)
Definition normalize_value (key : string) (val : value) : value :=
  match val with
  | VStr s =>
      let v := PyStr.strip s in
      if bool_decide (key = "address_residential_indicator") then
        let v := PyStr.lower v in
        let v := if negb (in_indicator_set v) then "unknown" else v in
        VStr v
      else if bool_decide (key = "country_code") then VStr (PyStr.upper v)
      else if bool_decide (key = "email") then VStr (PyStr.lower v)
      else VStr (PyStr.upper v)
  | _ => val
  end.

(** [AddressValidationService._normalize] *)
Definition _normalize (addr : dict) : dict :=
  let normalized : dict := map_imap (λ key val, Some (normalize_value key val)) addr in
  match normalized !! "address_residential_indicator" with
  | None => <["address_residential_indicator" := VStr "unknown"]> normalized
  | Some _ => normalized
  end.

End AddressValidationNormalize.

Module AddressRecognitionNormalize.

(** Body of the loop of [AddressRecognitionService._recognize_one]. *)
Definition recognize_value (k : string) (v : value) : value :=
  match v with
  | VStr s =>
      let vv := PyStr.strip s in
      if bool_decide (k = "country_code") then VStr (PyStr.upper vv)
      else if bool_decide (k = "email") then VStr (PyStr.lower vv)
      else if bool_decide (k = "address_residential_indicator") then
        let x := PyStr.lower (PyStr.strip vv) in
        VStr (if in_indicator_set x then x else "unknown")
      else VStr (PyStr.upper vv)
  | _ => v
  end.

(** [AddressRecognitionService._recognize_one] *)
Definition _recognize_one (addr : dict) : dict :=
  let out : dict := map_imap (λ k v, Some (recognize_value k v)) addr in
  match out !! "address_residential_indicator" with
  | None | Some VNone => <["address_residential_indicator" := VStr "unknown"]> out
  | Some _ => out
  end.

End AddressRecognitionNormalize.

(** ** Exceptions *)

Inductive exn : Type :=
| ValidationError                                   (* pydantic *)
| IntegrityError                                    (* duplicate primary key *)
| RuntimeError (msg : string)
| HTTPException (status_code : Z) (detail : string).

(** How a call ends: it returns a value or raises. *)
Inductive outcome (A : Type) : Type :=
| Returned (a : A)
| Raised (e : exn).
Arguments Returned {A} a.
Arguments Raised {A} e.

(** ** Models (app/models) *)

(** [uuid.UUID] *)
Abbreviation uuid := N.

(** [BatchStatus = Literal["queued", "processing", "completed", "failed"]] *)
Inductive BatchStatus : Type := queued | processing | completed | failed.

#[global] Instance BatchStatus_eq_dec : EqDecision BatchStatus.
Proof. solve_decision. Defined.

(** [AddressValidationBatch] and [AddressRecognitionBatch]: the batch row,
    keyed by its id in the store. The payload column is nullable and holds
    the JSON array written at creation. *)
Record Batch : Type := {
  status : BatchStatus;
  request_payload : option (list value)
}.

(** [AddressValidationItem] *)
Record AddressValidationItem : Type := {
  vi_batch_id : uuid;
  vi_status : string;
  vi_original_address : dict;
  vi_matched_address : dict;
  vi_messages : list dict
}.

(** [AddressRecognitionItem] *)
Record AddressRecognitionItem : Type := {
  ri_batch_id : uuid;
  ri_status : string;
  ri_recognized : dict
}.

(** Item rows carry the id of the batch that owns them. *)
Class ItemRow (I : Type) := batch_id : I → uuid.
#[global] Instance validation_item_row : ItemRow AddressValidationItem := vi_batch_id.
#[global] Instance recognition_item_row : ItemRow AddressRecognitionItem := ri_batch_id.

(** ** The store and the session *)

(** The two tables of one pipeline; items are kept in insertion order. *)
Record Store (I : Type) : Type := {
  batches : gmap uuid Batch;
  items : list I
}.
Arguments batches {I} _.
Arguments items {I} _.

(** An [AsyncSession]: the committed store (what any reader sees), the
    store as this session sees it with its own pending writes, and the
    committed snapshots produced so far, oldest first. *)
Record Session (I : Type) : Type := {
  committed : Store I;
  pending : Store I;
  history : list (Store I)
}.
Arguments committed {I} _.
Arguments pending {I} _.
Arguments history {I} _.

(** A session opened on a database. *)
Definition open_session {I} (db : Store I) : Session I :=
  {| committed := db; pending := db; history := [] |}.

(** Code running against a session. *)
Definition Op (I A : Type) : Type := Session I → outcome A * Session I.

#[global] Instance Op_ret {I} : MRet (Op I) := λ A a s, (Returned a, s).
#[global] Instance Op_bind {I} : MBind (Op I) := λ A B f m s,
  match m s with
  | (Returned a, s') => f a s'
  | (Raised e, s') => (Raised e, s')
  end.

Section SessionOps.
Context {I : Type} `{ItemRow I}.

Definition raise {A} (e : exn) : Op I A := λ s, (Raised e, s).

(** [Model.model_validate(x)] inside session code *)
Definition validated {A} (o : option A) : Op I A :=
  match o with Some a => mret a | None => raise ValidationError end.

Definition with_pending (f : Store I → Store I) : Op I unit := λ s,
  (Returned tt,
   {| committed := committed s; pending := f (pending s); history := history s |}).

(** [session.commit()] *)
Definition commit : Op I unit := λ s,
  (Returned tt,
   {| committed := pending s; pending := pending s;
      history := history s ++ [pending s] |}).

(** [session.rollback()], also what closing a session does to writes that
    were not committed. *)
Definition rollback : Op I unit := λ s,
  (Returned tt,
   {| committed := committed s; pending := committed s; history := history s |}).

(** [async with session.begin(): body]: commit when the block is left
    normally (a [return] inside it included), roll back and re-raise when
    it raises. *)
Definition begin {A} (body : Op I A) : Op I A := λ s,
  match body s with
  | (Returned a, s') => (Returned a, snd (commit s'))
  | (Raised e, s') => (Raised e, snd (rollback s'))
  end.

(** [session.get(Batch, batch_id)], and the [select(Batch).where(id ==
    batch_id)] queries; [with_for_update()] adds a row lock, which a single
    session does not observe. *)
Definition get_batch (id : uuid) : Op I (option Batch) := λ s,
  (Returned (batches (pending s) !! id), s).

(** [session.add(batch); session.flush()] with the generated id *)
Definition add_batch (id : uuid) (b : Batch) : Op I unit := λ s,
  match batches (pending s) !! id with
  | Some _ => (Raised IntegrityError, s)
  | None =>
      with_pending (λ st, {| batches := <[id := b]> (batches st); items := items st |}) s
  end.

(** The store after [batch.status = st] on the row loaded under [id]. *)
Definition with_status (id : uuid) (st : BatchStatus) (db : Store I) : Store I :=
  {| batches := alter (λ b, {| status := st; request_payload := request_payload b |})
                  id (batches db);
     items := items db |}.

(** [batch.status = st] *)
Definition set_status (id : uuid) (st : BatchStatus) : Op I unit :=
  with_pending (with_status id st).

(** The items of one batch, in insertion order. *)
Definition items_of (id : uuid) (db : Store I) : list I :=
  filter (λ it, batch_id it = id) (items db).

(** [select(Item.id).where(Item.batch_id == batch_id).limit(1)] with
    [scalar_one_or_none()] *)
Definition first_item (id : uuid) : Op I (option I) := λ s,
  (Returned (head (items_of id (pending s))), s).

(** The store after [delete(Item).where(Item.batch_id == batch_id)]. *)
Definition without_items (id : uuid) (db : Store I) : Store I :=
  {| batches := batches db;
     items := filter (λ it, batch_id it ≠ id) (items db) |}.

Definition delete_items (id : uuid) : Op I unit :=
  with_pending (without_items id).

(** The store after [session.add(item)] for each of [new], in order. *)
Definition with_items (new : list I) (db : Store I) : Store I :=
  {| batches := batches db; items := items db ++ new |}.

(** [session.add(item)] *)
Definition add_item (it : I) : Op I unit :=
  with_pending (with_items [it]).

(** [for x in xs: body(x)] *)
Fixpoint for_each {A} (body : A → Op I unit) (xs : list A) : Op I unit :=
  match xs with
  | [] => mret tt
  | x :: xs' => body x ;; for_each body xs'
  end.

(** A loop that appends one result per element. *)
Fixpoint for_each_collect {A B} (body : A → Op I B) (xs : list A) : Op I (list B) :=
  match xs with
  | [] => mret []
  | x :: xs' => r ← body x; rs ← for_each_collect body xs'; mret (r :: rs)
  end.

(** [[Model.model_validate(a) for a in payload]]: the first record that
    does not validate raises. *)
Fixpoint validate_all {A} (model_validate : value → option A) (payload : list value)
    : option (list A) :=
  match payload with
  | [] => Some []
  | a :: rest =>
      x ← model_validate a; xs ← validate_all model_validate rest; Some (x :: xs)
  end.

End SessionOps.

(** ** Validation service (app/services/address_validation.py) *)

Record ValidationMessage : Type := {
  code : string;
  message : string;
  level : string
}.

(** [m.model_dump()] *)
Definition ValidationMessage_model_dump (m : ValidationMessage) : dict :=
  <["code" := VStr (code m)]>
  (<["message" := VStr (message m)]>
  (<["level" := VStr (level m)]> ∅)).

Record AddressValidationResultOut : Type := {
  vr_status : string;
  vr_original_address : AddressOut;
  vr_matched_address : AddressOut;
  vr_messages : list ValidationMessage
}.

Module AddressValidationService.
Export AddressValidationNormalize.

Abbreviation Op := (Op AddressValidationItem).

(** [not addr.postal_code] *)
Definition postal_falsy (p : postal) : bool :=
  match p with
  | PostalNone => true
  | PostalStr s => bool_decide (s = "")
  | PostalInt z => bool_decide (z = 0%Z)
  end.

Definition _status_and_messages (addr : AddressIn) : string * list ValidationMessage :=
  let msgs :=
    if bool_decide (PyStr.upper (country_code addr) = "US") && postal_falsy (postal_code addr)
    then [ {| code := "missing_postal_code";
              message := "postal_code is recommended for US";
              level := "warning" |} ]
    else [] in
  ("verified", msgs).

(** The item built from one address, in [validate_and_store] and in
    [process_existing_batch] alike. *)
Definition item_for (batch_id : uuid) (addr : AddressIn) : AddressValidationItem :=
  let original_dict := model_dump addr in
  let matched_dict := _normalize original_dict in
  let '(status, messages) := _status_and_messages addr in
  {| vi_batch_id := batch_id;
     vi_status := status;
     vi_original_address := original_dict;
     vi_matched_address := matched_dict;
     vi_messages := ValidationMessage_model_dump <$> messages |}.

(** Lines 103-111 of [validate_and_store]: the copy of the dumped address
    whose indicator is put in canonical form for the response. *)
Definition original_for_out (original_dict : dict) : dict :=
  match original_dict !! "address_residential_indicator" with
  | Some (VStr ari) =>
      let v := PyStr.lower (PyStr.strip ari) in
      <["address_residential_indicator" :=
          VStr (if in_indicator_set v then v else "unknown")]> original_dict
  | Some VNone | None =>
      <["address_residential_indicator" := VStr "unknown"]> original_dict
  | Some _ => original_dict
  end.

(** [create_queued_batch]; [new_id] is the id [uuid.uuid4] generates. *)
Definition create_queued_batch (new_id : uuid) (addresses : list AddressIn) : Op uuid :=
  let payload := (λ a, VDict (model_dump a)) <$> addresses in
  begin (add_batch new_id {| status := queued; request_payload := Some payload |});;
  mret new_id.

(** Body of the loop of [validate_and_store]: the item is added, then the
    result record is built; either [AddressOut.model_validate] may raise. *)
Definition validate_one (batch_id : uuid) (addr : AddressIn) : Op AddressValidationResultOut :=
  let original_dict := model_dump addr in
  let matched_dict := _normalize original_dict in
  let '(status, messages) := _status_and_messages addr in
  add_item (item_for batch_id addr);;
  original_out ← validated (AddressIn_model_validate (VDict (original_for_out original_dict)));
  matched_out ← validated (AddressIn_model_validate (VDict matched_dict));
  mret {| vr_status := status;
          vr_original_address := original_out;
          vr_matched_address := matched_out;
          vr_messages := messages |}.

(** [validate_and_store] *)
Definition validate_and_store (new_id : uuid) (addresses : list AddressIn)
    : Op (uuid * list AddressValidationResultOut) :=
  let payload := (λ a, VDict (model_dump a)) <$> addresses in
  results ← begin (
    add_batch new_id {| status := completed; request_payload := Some payload |};;
    for_each_collect (validate_one new_id) addresses);
  mret (new_id, results).

(** [process_existing_batch] *)
Definition process_existing_batch (batch_id : uuid) : Op unit :=
  begin (
    batch ← get_batch batch_id;
    match batch with
    | None => mret tt
    | Some batch =>
        existing_item_id ← first_item batch_id;
        if bool_decide (status batch = completed)
           && bool_decide (existing_item_id ≠ None)
        then mret tt
        else
          let payload := default [] (request_payload batch) in
          match payload with
          | [] => set_status batch_id failed
          | _ =>
              set_status batch_id processing;;
              delete_items batch_id;;
              addresses ← validated (validate_all AddressIn_model_validate payload);
              for_each (λ addr, add_item (item_for batch_id addr)) addresses;;
              set_status batch_id completed
          end
    end).

(** [requeue_batch] *)
Definition requeue_batch (batch_id : uuid) : Op bool :=
  begin (
    batch ← get_batch batch_id;
    match batch with
    | None => mret false
    | Some batch =>
        if bool_decide (status batch = processing) then raise (RuntimeError "processing")
        else
          match request_payload batch with
          | None | Some [] => set_status batch_id failed;; mret false
          | Some _ =>
              set_status batch_id queued;;
              delete_items batch_id;;
              mret true
          end
    end).

(** [delete_batch] *)
Definition delete_batch (batch_id : uuid) : Op bool :=
  begin (
    batch ← get_batch batch_id;
    match batch with
    | None => mret false
    | Some _ =>
        delete_items batch_id;;
        with_pending (λ db, {| batches := delete batch_id (batches db); items := items db |});;
        mret true
    end).

End AddressValidationService.

(** ** Recognition schemas (app/schemas/addresses.py) *)

(** A field of type [ResidentialIndicator | None]: a literal of the closed
    set, or null; there is no [before] validator on these models. *)
Definition opt_indicator_field (d : dict) (k : string) : option (option string) :=
  match d !! k with
  | None | Some VNone => Some None
  | Some (VStr s) => if in_indicator_set s then Some (Some s) else None
  | Some _ => None
  end.

Record AddressRecognizeKnownValues : Type := {
  kv_name : option string;
  kv_address_line1 : option string;
  kv_address_line2 : option string;
  kv_address_line3 : option string;
  kv_city_locality : option string;
  kv_state_province : option string;
  kv_postal_code : postal;
  kv_country_code : option string;
  kv_address_residential_indicator : option string
}.

Definition AddressRecognizeKnownValues_model_validate (obj : value)
    : option AddressRecognizeKnownValues :=
  match obj with
  | VDict d =>
      name ← opt_str_field d "name";
      address_line1 ← opt_str_field d "address_line1";
      address_line2 ← opt_str_field d "address_line2";
      address_line3 ← opt_str_field d "address_line3";
      city_locality ← opt_str_field d "city_locality";
      state_province ← opt_str_field d "state_province";
      postal_code ← postal_field d "postal_code";
      country_code ← opt_str_field d "country_code";
      indicator ← opt_indicator_field d ARI;
      Some {| kv_name := name;
              kv_address_line1 := address_line1;
              kv_address_line2 := address_line2;
              kv_address_line3 := address_line3;
              kv_city_locality := city_locality;
              kv_state_province := state_province;
              kv_postal_code := postal_code;
              kv_country_code := country_code;
              kv_address_residential_indicator := indicator |}
  | _ => None
  end.

(** [addr.address.model_dump()] *)
Definition AddressRecognizeKnownValues_model_dump (a : AddressRecognizeKnownValues) : dict :=
  <["name" := dump_opt_str (kv_name a)]>
  (<["address_line1" := dump_opt_str (kv_address_line1 a)]>
  (<["address_line2" := dump_opt_str (kv_address_line2 a)]>
  (<["address_line3" := dump_opt_str (kv_address_line3 a)]>
  (<["city_locality" := dump_opt_str (kv_city_locality a)]>
  (<["state_province" := dump_opt_str (kv_state_province a)]>
  (<["postal_code" := dump_postal (kv_postal_code a)]>
  (<["country_code" := dump_opt_str (kv_country_code a)]>
  (<[ARI := dump_opt_str (kv_address_residential_indicator a)]> ∅)))))))).

Record AddressRecognizeIn : Type := {
  text : string;
  address : option AddressRecognizeKnownValues
}.

Definition AddressRecognizeIn_model_validate (obj : value) : option AddressRecognizeIn :=
  match obj with
  | VDict d =>
      text ← req_str_field d "text" 1 None;
      address ←
        match d !! "address" with
        | None | Some VNone => Some None
        | Some v => Some <$> AddressRecognizeKnownValues_model_validate v
        end;
      Some {| text := text; address := address |}
  | _ => None
  end.

Record PartialAddressOut : Type := {
  pa_name : option string;
  pa_phone : option string;
  pa_email : option string;
  pa_company_name : option string;
  pa_address_line1 : option string;
  pa_address_line2 : option string;
  pa_address_line3 : option string;
  pa_city_locality : option string;
  pa_state_province : option string;
  pa_postal_code : postal;
  pa_country_code : option string;
  pa_address_residential_indicator : option string
}.

Definition PartialAddressOut_model_validate (obj : value) : option PartialAddressOut :=
  match obj with
  | VDict d =>
      name ← opt_str_field d "name";
      phone ← opt_str_field d "phone";
      email ← opt_str_field d "email";
      company_name ← opt_str_field d "company_name";
      address_line1 ← opt_str_field d "address_line1";
      address_line2 ← opt_str_field d "address_line2";
      address_line3 ← opt_str_field d "address_line3";
      city_locality ← opt_str_field d "city_locality";
      state_province ← opt_str_field d "state_province";
      postal_code ← postal_field d "postal_code";
      country_code ← opt_str_field d "country_code";
      indicator ← opt_indicator_field d ARI;
      Some {| pa_name := name; pa_phone := phone; pa_email := email;
              pa_company_name := company_name;
              pa_address_line1 := address_line1;
              pa_address_line2 := address_line2;
              pa_address_line3 := address_line3;
              pa_city_locality := city_locality;
              pa_state_province := state_province;
              pa_postal_code := postal_code;
              pa_country_code := country_code;
              pa_address_residential_indicator := indicator |}
  | _ => None
  end.

(** What the service hands to a field of type [PartialAddressOut]: JSON
    data, or an instance of a model class. *)
Inductive field_input : Type :=
| InData (v : value)
| InAddressOut (a : AddressOut)
| InPartialAddressOut (p : PartialAddressOut).

(** Validation of a field of type [PartialAddressOut]: pydantic takes a
    dictionary or an instance of that class; an instance of another model
    class ([AddressOut] does not derive from [PartialAddressOut]) is a
    [ValidationError]. *)
Definition PartialAddressOut_field (x : field_input) : option PartialAddressOut :=
  match x with
  | InData v => PartialAddressOut_model_validate v
  | InPartialAddressOut p => Some p
  | InAddressOut _ => None
  end.

Record AddressRecognizeResultOut : Type := {
  rr_status : string;
  rr_original_address : PartialAddressOut;
  rr_recognized_address : PartialAddressOut
}.

(** [AddressRecognizeResultOut(original_address=..., recognized_address=...)] *)
Definition AddressRecognizeResultOut_init (original_address recognized_address : field_input)
    : option AddressRecognizeResultOut :=
  o ← PartialAddressOut_field original_address;
  r ← PartialAddressOut_field recognized_address;
  Some {| rr_status := "recognized"; rr_original_address := o; rr_recognized_address := r |}.

(** ** Recognition service (app/services/address_recognition.py) *)

Module AddressRecognitionService.
Export AddressRecognitionNormalize.

Abbreviation Op := (Op AddressRecognitionItem).

(** The item both [recognize_and_store] and [process_existing_batch] add
    for an original record. *)
Definition item_for (batch_id : uuid) (original : dict) : AddressRecognitionItem :=
  let recognized := _recognize_one original in
  {| ri_batch_id := batch_id;
     ri_status := "completed";
     ri_recognized :=
       <["original_address" := VDict original]>
       (<["recognized_address" := VDict recognized]> ∅) |}.

(** [create_queued_batch] *)
Definition create_queued_batch (new_id : uuid) (addresses : list AddressIn) : Op uuid :=
  let payload := (λ a, VDict (model_dump a)) <$> addresses in
  add_batch new_id {| status := queued; request_payload := Some payload |};;
  commit;;
  mret new_id.

(** Body of the loop of [recognize_and_store]. *)
Definition recognize_one (batch_id : uuid) (addr : AddressIn) : Op AddressRecognizeResultOut :=
  let original := model_dump addr in
  let recognized := _recognize_one original in
  add_item (item_for batch_id original);;
  original_out ← validated (AddressIn_model_validate (VDict original));
  recognized_out ← validated (AddressIn_model_validate (VDict recognized));
  validated (AddressRecognizeResultOut_init
               (InAddressOut original_out) (InAddressOut recognized_out)).

(** [recognize_and_store] *)
Definition recognize_and_store (new_id : uuid) (addresses : list AddressIn)
    : Op (uuid * list AddressRecognizeResultOut) :=
  let payload := (λ a, VDict (model_dump a)) <$> addresses in
  add_batch new_id {| status := completed; request_payload := Some payload |};;
  results ← for_each_collect (recognize_one new_id) addresses;
  commit;;
  mret (new_id, results).

(** [addr.address.model_dump() if addr.address else {}] *)
Definition original_of (addr : AddressRecognizeIn) : dict :=
  match address addr with
  | Some a => AddressRecognizeKnownValues_model_dump a
  | None => ∅
  end.

(** [process_existing_batch] *)
Definition process_existing_batch (batch_id : uuid) : Op unit :=
  batch ← get_batch batch_id;
  match batch with
  | None => mret tt
  | Some batch =>
      if bool_decide (status batch = processing) || bool_decide (status batch = completed)
      then mret tt
      else
        let payload := default [] (request_payload batch) in
        match payload with
        | [] => set_status batch_id failed;; commit
        | _ =>
            set_status batch_id processing;;
            commit;;
            delete_items batch_id;;
            addresses ← validated (validate_all AddressRecognizeIn_model_validate payload);
            for_each (λ addr, add_item (item_for batch_id (original_of addr))) addresses;;
            b2 ← get_batch batch_id;
            match b2 with
            | Some _ => set_status batch_id completed
            | None => mret tt
            end;;
            commit
        end
  end.

End AddressRecognitionService.

(** ** Worker jobs (app/workers/jobs.py) *)

(** [async with async_session_factory() as session: body]: a fresh session
    on the database; leaving the block closes it, which discards what was not
    committed. The result is how the job ended, the database afterwards, and
    every committed snapshot a reader could have seen, oldest first. *)
Definition in_new_session {I A} (body : Op I A) (db : Store I)
    : outcome A * Store I * list (Store I) :=
  let '(r, s) := body (open_session db) in
  (r, committed s, history s).

(** [validate_addresses_batch]; the queue carries [str(batch_id)], which
    [uuid.UUID] reads back. *)
Definition validate_addresses_batch (batch_id : uuid) (db : Store AddressValidationItem) :=
  in_new_session (AddressValidationService.process_existing_batch batch_id) db.

(** [recognize_addresses_batch] *)
Definition recognize_addresses_batch (batch_id : uuid) (db : Store AddressRecognitionItem) :=
  in_new_session (AddressRecognitionService.process_existing_batch batch_id) db.

(** ** Requeue endpoint (app/api/v1/endpoints/addresses.py) *)

(** The application state an endpoint works on: the validation database and
    the jobs enqueued on redis, oldest first. *)
Record App : Type := {
  db : Store AddressValidationItem;
  redis : list (string * uuid)
}.

(** [AddressesAPI.requeue_validation_batch]; the session is the request's
    [get_db] dependency. *)
Definition requeue_validation_batch (batch_id : uuid) (app : App) : outcome unit * App :=
  let '(r, db', _) := in_new_session (AddressValidationService.requeue_batch batch_id) (db app) in
  match r with
  | Raised (RuntimeError _) =>
      (Raised (HTTPException 409 "batch is processing"), {| db := db'; redis := redis app |})
  | Raised e => (Raised e, {| db := db'; redis := redis app |})
  | Returned ok =>
      if negb ok
      then (Raised (HTTPException 404 "batch_id not found"), {| db := db'; redis := redis app |})
      else (Returned tt,
            {| db := db'; redis := redis app ++ [("validate_addresses_batch", batch_id)] |})
  end.

(** ** Well-formed instances and the response of the synchronous path *)

(** The constraints of the [AddressIn] schema on an instance: what
    [model_validate] guarantees of every instance it builds. *)
Definition AddressIn_ok (a : AddressIn) : bool :=
  (1 <=? String.length (address_line1 a))%nat
  && (1 <=? String.length (city_locality a))%nat
  && (1 <=? String.length (state_province a))%nat
  && (2 <=? String.length (country_code a))%nat
  && (String.length (country_code a) <=? 2)%nat
  && in_indicator_set (address_residential_indicator a).

(** [AddressOut.model_validate(matched_dict)] in [validate_and_store] *)
Definition matched_out (addr : AddressIn) : option AddressOut :=
  AddressIn_model_validate (VDict (AddressValidationNormalize._normalize (model_dump addr))).

(** [AddressOut.model_validate(original_for_out)] in [validate_and_store] *)
Definition original_out (addr : AddressIn) : option AddressOut :=
  AddressIn_model_validate
    (VDict (AddressValidationService.original_for_out (model_dump addr))).

(** The result record [validate_and_store] appends for one address, when
    both validations of the response succeed. *)
Definition result_for (addr : AddressIn) : option AddressValidationResultOut :=
  o ← original_out addr;
  m ← matched_out addr;
  Some {| vr_status := fst (AddressValidationService._status_and_messages addr);
          vr_original_address := o;
          vr_matched_address := m;
          vr_messages := snd (AddressValidationService._status_and_messages addr) |}.

(** The store with a new batch row. *)
Definition with_batch {I} (id : uuid) (b : Batch) (d : Store I) : Store I :=
  {| batches := <[id := b]> (batches d); items := items d |}.

(** ** Runs and what a reader can observe *)

Definition job_outcome {I A} (run : outcome A * Store I * list (Store I)) : outcome A :=
  fst (fst run).

(** The database when the job has ended. *)
Definition job_db {I A} (run : outcome A * Store I * list (Store I)) : Store I :=
  snd (fst run).

(** The snapshots committed during the job, oldest first: with the database
    before the job, every state a reader can observe. *)
Definition job_history {I A} (run : outcome A * Store I * list (Store I)) : list (Store I) :=
  snd run.

(** A run is one atomic unit of work when a reader only ever sees the
    database as it was before or as it is after. *)
Definition one_unit_of_work {I A} (before : Store I)
    (run : outcome A * Store I * list (Store I)) : Prop :=
  ∀ s, s ∈ job_history run → s = before ∨ s = job_db run.

(** The items of batch [id] are exactly one item per record of its stored
    payload, in payload order, each built by [mk] from the record as
    [model_validate] reads it. *)
Definition items_match_payload {I A} `{ItemRow I}
    (model_validate : value → option A) (mk : uuid → A → I)
    (id : uuid) (s : Store I) : Prop :=
  ∃ b addresses,
    batches s !! id = Some b
    ∧ validate_all model_validate (default [] (request_payload b)) = Some addresses
    ∧ items_of id s = mk id <$> addresses.

(** The store Process leaves when it regenerates the items of [id]: the
    old items of the batch are gone, [new] is appended, and the status is
    [completed]. *)
Definition regenerated {I} `{ItemRow I} (id : uuid) (new : list I) (d : Store I) : Store I :=
  with_status id completed (with_items new (without_items id (with_status id processing d))).

(** ** Sample data *)

Definition sample_address : AddressIn :=
  {| name := None; phone := None; email := None; company_name := None;
     address_line1 := "1 Main St"; address_line2 := None; address_line3 := None;
     city_locality := "anytown"; state_province := "ca";
     postal_code := PostalNone; country_code := "us";
     address_residential_indicator := "unknown" |}.

(** An address that passes the input schema and whose first line is a
    single space. *)
Definition blank_line_address : AddressIn :=
  {| name := None; phone := None; email := None; company_name := None;
     address_line1 := " "; address_line2 := None; address_line3 := None;
     city_locality := "anytown"; state_province := "ca";
     postal_code := PostalNone; country_code := "us";
     address_residential_indicator := "unknown" |}.

(** The results the synchronous validation returns for [[sample_address]]. *)
Definition sample_results : list AddressValidationResultOut :=
  Eval vm_compute in default [] (mapM result_for [sample_address]).

Definition empty_db {I} : Store I := {| batches := ∅; items := [] |}.

(** A database with one batch, of the given status and payload, and no
    items. *)
Definition one_batch_db {I} (id : uuid) (st : BatchStatus) (payload : option (list value))
    : Store I :=
  {| batches := {[ id := {| status := st; request_payload := payload |} ]}; items := [] |}.

(** ** Two workers on one database *)

(** The queue delivers a message at least once, so two workers can run the
    same job on the same batch at the same time. Each worker is then at some
    point of [process_existing_batch], between two round trips to the
    database, and the round trips of the two workers interleave in any order.
    A statement sees what is committed when it runs; the writes of a
    transaction reach the database when it commits. *)

Inductive worker : Type := worker_1 | worker_2.

#[global] Instance worker_eq_dec : EqDecision worker.
Proof. solve_decision. Defined.

(** Item rows with their primary keys. *)
#[global] Instance keyed_item_row {I} `{ItemRow I} : ItemRow (N * I) := λ r, batch_id (snd r).

(** The database shared by the workers: the committed tables, the next
    primary key of the items table, and the batch rows locked by a
    [SELECT ... FOR UPDATE] that has not committed yet. *)
Record Shared (I : Type) : Type := {
  sh_db : Store (N * I);
  sh_next : N;
  sh_lock : gmap uuid worker
}.
Arguments sh_db {I} _.
Arguments sh_next {I} _.
Arguments sh_lock {I} _.

Section SharedOps.
Context {I : Type} `{ItemRow I}.

Definition update_db (f : Store (N * I) → Store (N * I)) (sh : Shared I) : Shared I :=
  {| sh_db := f (sh_db sh); sh_next := sh_next sh; sh_lock := sh_lock sh |}.

(** The row lock of [id] taken by [w]. *)
Definition acquire (id : uuid) (w : worker) (sh : Shared I) : Shared I :=
  {| sh_db := sh_db sh; sh_next := sh_next sh; sh_lock := <[id := w]> (sh_lock sh) |}.

(** The end of a transaction gives the row lock back. *)
Definition release (id : uuid) (sh : Shared I) : Shared I :=
  {| sh_db := sh_db sh; sh_next := sh_next sh; sh_lock := delete id (sh_lock sh) |}.

(** New rows, keyed from [next] on. *)
Fixpoint keyed (next : N) (new : list I) : list (N * I) :=
  match new with
  | [] => []
  | it :: rest => (next, it) :: keyed (N.succ next) rest
  end.

(** The primary keys of the rows a [DELETE ... WHERE batch_id = id] hits
    when it runs. *)
Definition hit_rows (id : uuid) (sh : Shared I) : list N :=
  fst <$> items_of id (sh_db sh).

(** The commit of a transaction that deleted the rows [hit], added [new]
    and, when [complete] is set, marked the batch [completed]. *)
Definition commit_items (id : uuid) (hit : list N) (new : list I) (complete : bool)
    (sh : Shared I) : Shared I :=
  let rows := filter (λ r, fst r ∉ hit) (items (sh_db sh)) ++ keyed (sh_next sh) new in
  let db' := {| batches := batches (sh_db sh); items := rows |} in
  {| sh_db := if complete then with_status id completed db' else db';
     sh_next := (sh_next sh + N.of_nat (length new))%N;
     sh_lock := sh_lock sh |}.

(** The tables without the primary keys. *)
Definition store_of (sh : Shared I) : Store I :=
  {| batches := batches (sh_db sh); items := snd <$> items (sh_db sh) |}.

End SharedOps.

(** Where a worker is in [AddressValidationService.process_existing_batch]. *)
Inductive validation_point : Type :=
| v_start                                          (* before the locking select *)
| v_locked (batch : Batch)                         (* before the select of an item id *)
| v_processing (batch : Batch)                     (* status set, before the delete *)
| v_deleted (batch : Batch) (hit : list N)          (* before validation, inserts, commit *)
| v_done (r : outcome unit).

(** One round trip of a worker in the validation pipeline; [None] when the
    worker cannot move: it has finished, or it waits for the row lock. *)
Definition validation_step (id : uuid) (w : worker) (at_ : validation_point)
    (sh : Shared AddressValidationItem)
    : option (validation_point * Shared AddressValidationItem) :=
  match at_ with
  | v_start =>
      match sh_lock sh !! id with
      | Some _ => None
      | None =>
          match batches (sh_db sh) !! id with
          | None => Some (v_done (Returned tt), sh)
          | Some batch => Some (v_locked batch, acquire id w sh)
          end
      end
  | v_locked batch =>
      let existing_item_id := head (items_of id (sh_db sh)) in
      if bool_decide (status batch = completed) && bool_decide (existing_item_id ≠ None)
      then Some (v_done (Returned tt), release id sh)
      else
        match default [] (request_payload batch) with
        | [] => Some (v_done (Returned tt), release id (update_db (with_status id failed) sh))
        | _ => Some (v_processing batch, sh)
        end
  | v_processing batch => Some (v_deleted batch (hit_rows id sh), sh)
  | v_deleted batch hit =>
      match validate_all AddressIn_model_validate (default [] (request_payload batch)) with
      | None => Some (v_done (Raised ValidationError), release id sh)
      | Some addresses =>
          Some (v_done (Returned tt),
                release id
                  (commit_items id hit (AddressValidationService.item_for id <$> addresses)
                     true sh))
      end
  | v_done _ => None
  end.

(** Where a worker is in [AddressRecognitionService.process_existing_batch]. *)
Inductive recognition_point : Type :=
| r_start                                          (* before [session.get] *)
| r_failing (batch : Batch)                        (* empty payload, before the commit *)
| r_loaded (batch : Batch)                         (* before the commit of [processing] *)
| r_processing (batch : Batch)                     (* before the delete *)
| r_deleted (batch : Batch) (hit : list N)          (* before validation, inserts, commit *)
| r_done (r : outcome unit).

(** One round trip of a worker in the recognition pipeline. No statement of
    it takes a row lock that outlives the statement, so a worker that has not
    finished can always move. *)
Definition recognition_step (id : uuid) (w : worker) (at_ : recognition_point)
    (sh : Shared AddressRecognitionItem)
    : option (recognition_point * Shared AddressRecognitionItem) :=
  match at_ with
  | r_start =>
      match batches (sh_db sh) !! id with
      | None => Some (r_done (Returned tt), sh)
      | Some batch =>
          if bool_decide (status batch = processing) || bool_decide (status batch = completed)
          then Some (r_done (Returned tt), sh)
          else
            match default [] (request_payload batch) with
            | [] => Some (r_failing batch, sh)
            | _ => Some (r_loaded batch, sh)
            end
      end
  | r_failing batch => Some (r_done (Returned tt), update_db (with_status id failed) sh)
  | r_loaded batch => Some (r_processing batch, update_db (with_status id processing) sh)
  | r_processing batch => Some (r_deleted batch (hit_rows id sh), sh)
  | r_deleted batch hit =>
      match validate_all AddressRecognizeIn_model_validate
              (default [] (request_payload batch)) with
      | None => Some (r_done (Raised ValidationError), sh)
      | Some addresses =>
          let new :=
            (λ addr, AddressRecognitionService.item_for id
                       (AddressRecognitionService.original_of addr)) <$> addresses in
          let b2 := batches (sh_db sh) !! id in
          Some (r_done (Returned tt), commit_items id hit new (bool_decide (b2 ≠ None)) sh)
      end
  | r_done _ => None
  end.

(** The two workers and the database. *)
Record World (P I : Type) : Type := {
  shared : Shared I;
  at_1 : P;
  at_2 : P
}.
Arguments shared {P I} _.
Arguments at_1 {P I} _.
Arguments at_2 {P I} _.

Section Schedules.
Context {P I : Type} (step : worker → P → Shared I → option (P * Shared I)).

(** The worker [w] is given the processor; nothing happens when it cannot
    move. *)
Definition turn (w : worker) (W : World P I) : World P I :=
  match w with
  | worker_1 =>
      match step worker_1 (at_1 W) (shared W) with
      | Some (p, sh) => {| shared := sh; at_1 := p; at_2 := at_2 W |}
      | None => W
      end
  | worker_2 =>
      match step worker_2 (at_2 W) (shared W) with
      | Some (p, sh) => {| shared := sh; at_1 := at_1 W; at_2 := p |}
      | None => W
      end
  end.

(** The world after a schedule, a list of turns. *)
Definition run (schedule : list worker) (W : World P I) : World P I :=
  foldl (λ W w, turn w W) W schedule.

End Schedules.

Definition other (w : worker) : worker :=
  match w with worker_1 => worker_2 | worker_2 => worker_1 end.

(** The world in which [w] is at [p] and the other worker at [q]. *)
Definition world_of {P I} (w : worker) (p q : P) (sh : Shared I) : World P I :=
  match w with
  | worker_1 => {| shared := sh; at_1 := p; at_2 := q |}
  | worker_2 => {| shared := sh; at_1 := q; at_2 := p |}
  end.

(** Both workers receive the job for the batch; nobody holds a lock, and
    [next] primary keys were handed out so far. *)
Definition both_start {P I} (start : P) (d : Store (N * I)) (next : N) : World P I :=
  {| shared := {| sh_db := d; sh_next := next; sh_lock := ∅ |};
     at_1 := start; at_2 := start |}.

(** The tables after the one pass of the validation pipeline that
    regenerates the items of [id] from [addresses], on the tables [d] with
    [next] primary keys handed out. *)
Definition after_pass_of (id : uuid) (d : Store (N * AddressValidationItem)) (next : N)
    (addresses : list AddressIn) : Shared AddressValidationItem :=
  commit_items id (fst <$> items_of id d)
    (AddressValidationService.item_for id <$> addresses) true
    {| sh_db := d; sh_next := next; sh_lock := ∅ |}.

Definition completed_of (b : Batch) : Batch :=
  {| status := completed; request_payload := request_payload b |}.

(** The worlds two validation workers can be in when they process the batch
    [b] of [d]: nobody has started; one worker holds the lock and is at
    work, the other has not got past the locking select; one has finished and
    the other has not started; one has finished and the other holds the lock
    on the completed batch; both have finished. *)
Inductive serialized_worlds (id : uuid) (d : Store (N * AddressValidationItem)) (next : N)
    (b : Batch) (addresses : list AddressIn)
    : World validation_point AddressValidationItem → Prop :=
| ser_start sh :
    sh_db sh = d → sh_next sh = next → sh_lock sh !! id = None →
    serialized_worlds id d next b addresses (world_of worker_1 v_start v_start sh)
| ser_first w p sh :
    p = v_locked b ∨ p = v_processing b ∨ p = v_deleted b (fst <$> items_of id d) →
    sh_db sh = d → sh_next sh = next → sh_lock sh !! id = Some w →
    serialized_worlds id d next b addresses (world_of w p v_start sh)
| ser_between w sh :
    sh_db sh = sh_db (after_pass_of id d next addresses) →
    sh_next sh = sh_next (after_pass_of id d next addresses) →
    sh_lock sh !! id = None →
    serialized_worlds id d next b addresses
      (world_of w (v_done (Returned tt)) v_start sh)
| ser_second w sh :
    sh_db sh = sh_db (after_pass_of id d next addresses) →
    sh_next sh = sh_next (after_pass_of id d next addresses) →
    sh_lock sh !! id = Some (other w) →
    serialized_worlds id d next b addresses
      (world_of w (v_done (Returned tt)) (v_locked (completed_of b)) sh)
| ser_end sh :
    sh_db sh = sh_db (after_pass_of id d next addresses) →
    sh_next sh = sh_next (after_pass_of id d next addresses) →
    sh_lock sh !! id = None →
    serialized_worlds id d next b addresses
      (world_of worker_1 (v_done (Returned tt)) (v_done (Returned tt)) sh).
Arguments ser_start {id d next b addresses} sh _ _ _.
Arguments ser_first {id d next b addresses} w p sh _ _ _ _.
Arguments ser_between {id d next b addresses} w sh _ _ _.
Arguments ser_second {id d next b addresses} w sh _ _ _.
Arguments ser_end {id d next b addresses} sh _ _ _.


(** The instance with another indicator. *)
Definition with_indicator (a : AddressIn) (indicator : string) : AddressIn :=
  {| name := name a; phone := phone a; email := email a;
     company_name := company_name a;
     address_line1 := address_line1 a;
     address_line2 := address_line2 a;
     address_line3 := address_line3 a;
     city_locality := city_locality a;
     state_province := state_province a;
     postal_code := postal_code a;
     country_code := country_code a;
     address_residential_indicator := indicator |}.

(** A raw record as a client may send it: the sample address with an
    indicator in capitals and white space around it. *)
Definition raw_sample_address : value :=
  VDict (<[ARI := VStr " YES "]> (model_dump sample_address)).

(** The store [d'] differs from [d] at most in the status and the items of
    the batch [id]: every other batch has the row and the items it had, and
    no payload has changed, not even that of [id]. *)
Definition touches_only {I} `{ItemRow I} (id : uuid) (d d' : Store I) : Prop :=
  (∀ id', id' ≠ id →
     batches d' !! id' = batches d !! id' ∧ items_of id' d' = items_of id' d)
  ∧ (∀ id', request_payload <$> batches d' !! id' = request_payload <$> batches d !! id').

(** The payload [create_queued_batch] and [validate_and_store] store. *)
Definition dumps (P : list AddressIn) : list value := (λ a, VDict (model_dump a)) <$> P.

(** What [_recognize_one] makes of the string of a field other than the
    indicator. *)
Definition recognized_string (k s : string) : string :=
  if bool_decide (k = "email") then PyStr.lower (PyStr.strip s)
  else PyStr.upper (PyStr.strip s).

Definition recognized_postal (p : postal) : postal :=
  match p with
  | PostalStr s => PostalStr (recognized_string "postal_code" s)
  | _ => p
  end.

(** The recognized form of an address of the partial schema, field by
    field. *)
Definition recognized_partial (p : PartialAddressOut) : PartialAddressOut :=
  {| pa_name := recognized_string "name" <$> pa_name p;
     pa_phone := recognized_string "phone" <$> pa_phone p;
     pa_email := recognized_string "email" <$> pa_email p;
     pa_company_name := recognized_string "company_name" <$> pa_company_name p;
     pa_address_line1 := recognized_string "address_line1" <$> pa_address_line1 p;
     pa_address_line2 := recognized_string "address_line2" <$> pa_address_line2 p;
     pa_address_line3 := recognized_string "address_line3" <$> pa_address_line3 p;
     pa_city_locality := recognized_string "city_locality" <$> pa_city_locality p;
     pa_state_province := recognized_string "state_province" <$> pa_state_province p;
     pa_postal_code := recognized_postal (pa_postal_code p);
     pa_country_code := recognized_string "country_code" <$> pa_country_code p;
     pa_address_residential_indicator :=
       Some (default "unknown" (pa_address_residential_indicator p)) |}.

(** ** Reading batches and results (app/services/address_validation.py) *)

(** [ValidationStatus = Literal["verified", "unverified", "error"]] *)
Definition in_validation_status (s : string) : bool :=
  bool_decide (s = "verified") || bool_decide (s = "unverified") || bool_decide (s = "error").

(** [ValidationLevel = Literal["info", "warning", "error"]] *)
Definition in_validation_level (s : string) : bool :=
  bool_decide (s = "info") || bool_decide (s = "warning") || bool_decide (s = "error").

(** [ValidationMessage.model_validate(m)] *)
Definition ValidationMessage_model_validate (obj : value) : option ValidationMessage :=
  match obj with
  | VDict d =>
      code ← req_str_field d "code" 0 None;
      message ← req_str_field d "message" 0 None;
      level ←
        match d !! "level" with
        | None => Some "info"
        | Some (VStr s) => if in_validation_level s then Some s else None
        | Some _ => None
        end;
      Some {| code := code; message := message; level := level |}
  | _ => None
  end.

(** [ValidationBatchOut]; the creation time of the row is not modelled. *)
Record ValidationBatchOut : Type := {
  vb_id : uuid;
  vb_status : BatchStatus;
  vb_items_count : nat;
  vb_request_payload : option (list dict)
}.

(** The field [request_payload: list[dict] | None]: every element has to be
    a dictionary. *)
Definition payload_field (payload : option (list value)) : option (option (list dict)) :=
  match payload with
  | None => Some None
  | Some l =>
      Some <$> mapM (λ v, match v with VDict d => Some d | _ => None end) l
  end.

(** Queries ordered by [created_at]. The creation time of a row is the
    server default [func.now()], so the rows one transaction inserts can carry
    the same time, and the code does not fix the order in which the database
    returns them. The read operations take that order as a parameter,
    [by_created_at]; the properties assume of it only that it rearranges the
    rows of the query. *)
Definition rearranges {I} (by_created_at : list I → list I) : Prop :=
  ∀ rows, by_created_at rows ≡ₚ rows.

Module AddressValidationReads.
Import AddressValidationService.

(** The result [get_batch_results] builds from one item row. *)
Definition result_of_row (r : AddressValidationItem) : option AddressValidationResultOut :=
  messages ← mapM ValidationMessage_model_validate (VDict <$> vi_messages r);
  status ← (if in_validation_status (vi_status r) then Some (vi_status r) else None);
  original_address ← AddressIn_model_validate (VDict (vi_original_address r));
  matched_address ← AddressIn_model_validate (VDict (vi_matched_address r));
  Some {| vr_status := status;
          vr_original_address := original_address;
          vr_matched_address := matched_address;
          vr_messages := messages |}.

(** [get_batch_results] *)
Definition get_batch_results (by_created_at : list AddressValidationItem → list AddressValidationItem)
    (batch_id : uuid) : Op (list AddressValidationResultOut) := λ s,
  (match mapM result_of_row (by_created_at (items_of batch_id (pending s))) with
   | Some out => Returned out
   | None => Raised ValidationError
   end, s).

(** [get_batch]: the batch with the number of its items, [None] when there
    is no such batch. *)
Definition get_batch (batch_id : uuid) : Op (option ValidationBatchOut) := λ s,
  (match batches (pending s) !! batch_id with
   | None => Returned None
   | Some b =>
       match payload_field (request_payload b) with
       | Some payload =>
           Returned (Some {| vb_id := batch_id;
                             vb_status := status b;
                             vb_items_count := length (items_of batch_id (pending s));
                             vb_request_payload := payload |})
       | None => Raised ValidationError
       end
   end, s).

(** [if status: stmt = stmt.where(AddressValidationBatch.status == status)];
    every value of [BatchStatus] is a string that is not empty. *)
Definition status_matches (status_filter : option BatchStatus) (st : BatchStatus) : bool :=
  match status_filter with
  | Some wanted => bool_decide (st = wanted)
  | None => true
  end.

(** The [ValidationBatchOut] built from one row of the listing query. *)
Definition summary_of_row (d : Store AddressValidationItem) (row : uuid * Batch)
    : option ValidationBatchOut :=
  payload ← payload_field (request_payload row.2);
  Some {| vb_id := row.1;
          vb_status := status row.2;
          vb_items_count := length (items_of row.1 d);
          vb_request_payload := payload |}.

(** [list_batches]: the batches with the number of their items, filtered by
    status, ordered by creation time, newest first, [limit] of them after the
    first [offset]. [by_created_at_desc] is the order in which the database
    returns the rows. The endpoint admits [1 <= limit <= 200] and
    [0 <= offset] only. *)
Definition list_batches (by_created_at_desc : list (uuid * Batch) → list (uuid * Batch))
    (limit offset : nat) (status_filter : option BatchStatus)
    : Op (list ValidationBatchOut) := λ s,
  let selected :=
    filter (λ row, status_matches status_filter (status row.2))
           (map_to_list (batches (pending s))) in
  let rows := take limit (drop offset (by_created_at_desc selected)) in
  (match mapM (summary_of_row (pending s)) rows with
   | Some out => Returned out
   | None => Raised ValidationError
   end, s).

End AddressValidationReads.

(** ** Recognition as the endpoint calls it *)

(** [a.model_dump()] of an [AddressRecognizeIn] *)
Definition AddressRecognizeIn_model_dump (a : AddressRecognizeIn) : dict :=
  <["text" := VStr (text a)]>
  (<["address" :=
       match address a with
       | Some kv => VDict (AddressRecognizeKnownValues_model_dump kv)
       | None => VNone
       end]> ∅).

(** An optional indicator of the closed set. *)
Definition opt_indicator_ok (o : option string) : bool :=
  match o with Some s => in_indicator_set s | None => true end.

(** The constraints of the [AddressRecognizeIn] schema on an instance. *)
Definition AddressRecognizeIn_ok (a : AddressRecognizeIn) : bool :=
  (1 <=? String.length (text a))%nat
  && match address a with
     | Some kv => opt_indicator_ok (kv_address_residential_indicator kv)
     | None => true
     end.

(** The known values as a [PartialAddressOut]. *)
Definition partial_of_known (kv : AddressRecognizeKnownValues) : PartialAddressOut :=
  {| pa_name := kv_name kv; pa_phone := None; pa_email := None; pa_company_name := None;
     pa_address_line1 := kv_address_line1 kv;
     pa_address_line2 := kv_address_line2 kv;
     pa_address_line3 := kv_address_line3 kv;
     pa_city_locality := kv_city_locality kv;
     pa_state_province := kv_state_province kv;
     pa_postal_code := kv_postal_code kv;
     pa_country_code := kv_country_code kv;
     pa_address_residential_indicator := kv_address_residential_indicator kv |}.

(** A [PartialAddressOut] with every field absent. *)
Definition empty_partial : PartialAddressOut :=
  {| pa_name := None; pa_phone := None; pa_email := None; pa_company_name := None;
     pa_address_line1 := None; pa_address_line2 := None; pa_address_line3 := None;
     pa_city_locality := None; pa_state_province := None;
     pa_postal_code := PostalNone; pa_country_code := None;
     pa_address_residential_indicator := None |}.

(** Python truth value of a JSON value. *)
Definition truthy (v : value) : bool :=
  match v with
  | VNone => false
  | VBool b => b
  | VInt z => negb (bool_decide (z = 0%Z))
  | VStr s => negb (bool_decide (s = ""))
  | VList l => match l with [] => false | _ => true end
  | VDict d => negb (bool_decide (d = ∅))
  end.

(** [blob.get(key) or {}] *)
Definition get_or_empty (blob : dict) (key : string) : value :=
  match blob !! key with
  | Some v => if truthy v then v else VDict ∅
  | None => VDict ∅
  end.

Module AddressRecognitionCalls.
Import AddressRecognitionService.

(** [AddressRecognitionService.create_queued_batch] on the list the endpoint
    [recognize_addresses] passes: [AddressRecognizeIn] instances, of which
    the body only calls [model_dump()]. *)
Definition create_queued_batch (new_id : uuid) (payload : list AddressRecognizeIn) : Op uuid :=
  let payload := (λ a, VDict (AddressRecognizeIn_model_dump a)) <$> payload in
  add_batch new_id {| status := queued; request_payload := Some payload |};;
  commit;;
  mret new_id.

(** The result [get_results] builds from one item row. *)
Definition result_of_row (r : AddressRecognitionItem) : option AddressRecognizeResultOut :=
  let blob := ri_recognized r in
  original_out ← AddressIn_model_validate (get_or_empty blob "original_address");
  recognized_out ← AddressIn_model_validate (get_or_empty blob "recognized_address");
  AddressRecognizeResultOut_init (InAddressOut original_out) (InAddressOut recognized_out).

(** [AddressRecognitionService.get_results] *)
Definition get_results
    (by_created_at : list AddressRecognitionItem → list AddressRecognitionItem)
    (batch_id : uuid) : Op (list AddressRecognizeResultOut) := λ s,
  (match mapM result_of_row (by_created_at (items_of batch_id (pending s))) with
   | Some out => Returned out
   | None => Raised ValidationError
   end, s).

(** Body of the loop of [recognize_and_store] on an [AddressRecognizeIn]:
    the dump has the keys [text] and [address], and it is this dump that
    [AddressOut.model_validate] is given. *)
Definition recognize_one (batch_id : uuid) (addr : AddressRecognizeIn)
    : Op AddressRecognizeResultOut :=
  let original := AddressRecognizeIn_model_dump addr in
  let recognized := _recognize_one original in
  add_item (item_for batch_id original);;
  original_out ← validated (AddressIn_model_validate (VDict original));
  recognized_out ← validated (AddressIn_model_validate (VDict recognized));
  validated (AddressRecognizeResultOut_init
               (InAddressOut original_out) (InAddressOut recognized_out)).

(** [AddressRecognitionService.recognize_and_store] on the list the endpoint
    passes. *)
Definition recognize_and_store (new_id : uuid) (payload : list AddressRecognizeIn)
    : Op (uuid * list AddressRecognizeResultOut) :=
  let dumped := (λ a, VDict (AddressRecognizeIn_model_dump a)) <$> payload in
  add_batch new_id {| status := completed; request_payload := Some dumped |};;
  results ← for_each_collect (recognize_one new_id) payload;
  commit;;
  mret (new_id, results).

End AddressRecognitionCalls.

(** The application state the recognition endpoints work on: the
    recognition database and the jobs enqueued on redis, oldest first. *)
Record RecognitionApp : Type := {
  rec_db : Store AddressRecognitionItem;
  rec_redis : list (string * uuid)
}.

(** The original address [process_existing_batch] stores for a payload
    record, as the results endpoint reads it back. *)
Definition original_partial (a : AddressRecognizeIn) : PartialAddressOut :=
  match address a with
  | Some kv => partial_of_known kv
  | None => empty_partial
  end.

(** The result the results endpoint of the recognition pipeline gives for
    a payload record that was processed. *)
Definition recognition_result_for (a : AddressRecognizeIn) : AddressRecognizeResultOut :=
  {| rr_status := "recognized";
     rr_original_address := original_partial a;
     rr_recognized_address := recognized_partial (original_partial a) |}.

(** The payload the endpoint version of [create_queued_batch] stores. *)
Definition recognition_dumps (payload : list AddressRecognizeIn) : list value :=
  (λ a, VDict (AddressRecognizeIn_model_dump a)) <$> payload.

(** ** More endpoints (app/api/v1/endpoints/addresses.py) *)

(** What an endpoint answers: the status code, the batch id it puts in the
    response header, and the body. *)
Record Response (B : Type) : Type := {
  status_code : Z;
  header_batch_id : option uuid;
  body : B
}.
Arguments status_code {B} _.
Arguments header_batch_id {B} _.
Arguments body {B} _.

Module AddressesAPI.

(** [validate_addresses]; [new_id] is the id [uuid.uuid4] generates for
    the batch. *)
Definition validate_addresses (new_id : uuid) (addresses : list AddressIn)
    (async_mode : bool) (app : App)
    : outcome (Response (list AddressValidationResultOut)) * App :=
  if async_mode then
    let '(r, db', _) :=
      in_new_session (AddressValidationService.create_queued_batch new_id addresses) (db app) in
    match r with
    | Returned batch_id =>
        (Returned {| status_code := 202; header_batch_id := Some batch_id; body := [] |},
         {| db := db'; redis := redis app ++ [("validate_addresses_batch", batch_id)] |})
    | Raised e => (Raised e, {| db := db'; redis := redis app |})
    end
  else
    let '(r, db', _) :=
      in_new_session (AddressValidationService.validate_and_store new_id addresses) (db app) in
    match r with
    | Returned (batch_id, results) =>
        (Returned {| status_code := 200; header_batch_id := Some batch_id; body := results |},
         {| db := db'; redis := redis app |})
    | Raised e => (Raised e, {| db := db'; redis := redis app |})
    end.

(** [recognize_addresses]; [new_id] is the id [uuid.uuid4] generates for
    the batch. *)
Definition recognize_addresses (new_id : uuid) (payload : list AddressRecognizeIn)
    (async_mode : bool) (app : RecognitionApp)
    : outcome (Response (list AddressRecognizeResultOut)) * RecognitionApp :=
  if async_mode then
    let '(r, db', _) :=
      in_new_session (AddressRecognitionCalls.create_queued_batch new_id payload)
        (rec_db app) in
    match r with
    | Returned rec_id =>
        (Returned {| status_code := 202; header_batch_id := Some rec_id; body := [] |},
         {| rec_db := db';
            rec_redis := rec_redis app ++ [("recognize_addresses_batch", rec_id)] |})
    | Raised e => (Raised e, {| rec_db := db'; rec_redis := rec_redis app |})
    end
  else
    let '(r, db', _) :=
      in_new_session (AddressRecognitionCalls.recognize_and_store new_id payload)
        (rec_db app) in
    match r with
    | Returned (rec_id, results) =>
        (Returned {| status_code := 200; header_batch_id := Some rec_id; body := results |},
         {| rec_db := db'; rec_redis := rec_redis app |})
    | Raised e => (Raised e, {| rec_db := db'; rec_redis := rec_redis app |})
    end.

(** [get_validation_results] *)
Definition get_validation_results
    (by_created_at : list AddressValidationItem → list AddressValidationItem)
    (batch_id : uuid) (d : Store AddressValidationItem)
    : outcome (list AddressValidationResultOut) :=
  match job_outcome (in_new_session
                       (AddressValidationReads.get_batch_results by_created_at batch_id) d) with
  | Returned [] => Raised (HTTPException 404 "batch_id not found or empty")
  | Returned results => Returned results
  | Raised e => Raised e
  end.

(** [list_validation_batches] *)
Definition list_validation_batches
    (by_created_at_desc : list (uuid * Batch) → list (uuid * Batch))
    (limit offset : nat) (status_filter : option BatchStatus)
    (d : Store AddressValidationItem) : outcome (list ValidationBatchOut) :=
  job_outcome (in_new_session
                 (AddressValidationReads.list_batches by_created_at_desc limit offset
                    status_filter) d).

(** [get_validation_batch] *)
Definition get_validation_batch (batch_id : uuid) (d : Store AddressValidationItem)
    : outcome ValidationBatchOut :=
  match job_outcome (in_new_session (AddressValidationReads.get_batch batch_id) d) with
  | Returned None => Raised (HTTPException 404 "batch_id not found")
  | Returned (Some batch) => Returned batch
  | Raised e => Raised e
  end.

(** [delete_validation_batch] *)
Definition delete_validation_batch (batch_id : uuid) (d : Store AddressValidationItem)
    : outcome unit * Store AddressValidationItem :=
  let '(r, d', _) := in_new_session (AddressValidationService.delete_batch batch_id) d in
  match r with
  | Returned ok =>
      if negb ok then (Raised (HTTPException 404 "batch_id not found"), d')
      else (Returned tt, d')
  | Raised e => (Raised e, d')
  end.

(** The result [get_recognition_results] builds from one item row. *)
Definition recognition_result_of_row (r : AddressRecognitionItem)
    : option AddressRecognizeResultOut :=
  let blob := ri_recognized r in
  AddressRecognizeResultOut_init
    (InData (get_or_empty blob "original_address"))
    (InData (get_or_empty blob "recognized_address")).

(** [get_recognition_results] *)
Definition get_recognition_results
    (by_created_at : list AddressRecognitionItem → list AddressRecognitionItem)
    (recognition_id : uuid) (d : Store AddressRecognitionItem)
    : outcome (list AddressRecognizeResultOut) :=
  match by_created_at (items_of recognition_id d) with
  | [] => Raised (HTTPException 404 "recognition_id not found or empty")
  | rows =>
      match mapM recognition_result_of_row rows with
      | Some results => Returned results
      | None => Raised ValidationError
      end
  end.

End AddressesAPI.

(** * Properties *)

(** ** Python strings *)

Section PyStrFacts.
Import PyStr.








Lemma lstrip_no_leading_space s : no_leading_space (lstrip s).
Proof.
  induction s as [|c s IH]; simpl; [done|].
  destruct (isspace c) eqn:Hc; [done|]. simpl. exact Hc.
Qed.

Lemma lstrip_id s : no_leading_space s → lstrip s = s.
Proof. destruct s as [|c s]; simpl; [done|]. by intros ->. Qed.

Lemma rstrip_no_leading_space s : no_leading_space s → no_leading_space (rstrip s).
Proof.
  destruct s as [|c s]; simpl; [done|]. intros Hc.
  destruct (rstrip s); simpl; [by rewrite Hc|done].
Qed.

Lemma rstrip_idem s : rstrip (rstrip s) = rstrip s.
Proof.
  induction s as [|c s IH]; simpl; [done|].
  destruct (rstrip s) as [|c' r] eqn:Hr.
  - destruct (isspace c) eqn:Hc; simpl; [done|]. by rewrite Hc.
  - change (rstrip (String c (String c' r))) with
      (match rstrip (String c' r) with
       | EmptyString => if isspace c then EmptyString else String c EmptyString
       | r0 => String c r0
       end).
    by rewrite IH.
Qed.

Lemma strip_idem s : strip (strip s) = strip s.
Proof.
  unfold strip.
  rewrite (lstrip_id (rstrip (lstrip s))).
  - apply rstrip_idem.
  - apply rstrip_no_leading_space, lstrip_no_leading_space.
Qed.






End PyStrFacts.

(** ** The closed set of residential indicators *)

Lemma in_indicator_set_spec v :
  in_indicator_set v = true ↔ v = "unknown" ∨ v = "yes" ∨ v = "no".
Proof.
  unfold in_indicator_set. rewrite !orb_true_iff, !bool_decide_eq_true. tauto.
Qed.

Lemma canonical_indicator_in_set s : in_indicator_set (canonical_indicator s) = true.
Proof.
  unfold canonical_indicator.
  destruct (in_indicator_set (PyStr.lower (PyStr.strip s))) eqn:H; [exact H|done].
Qed.

Lemma canonical_indicator_fixed v :
  in_indicator_set v = true → canonical_indicator v = v.
Proof. intros [->|[->| ->]]%in_indicator_set_spec; reflexivity. Qed.


(** ** Normalization, field by field *)

Section NormalizeFacts.
Import AddressValidationNormalize AddressRecognitionNormalize.

Lemma normalize_value_indicator s :
  normalize_value ARI (VStr s) = VStr (canonical_indicator s).
Proof.
  unfold normalize_value, canonical_indicator. simpl.
  by destruct (in_indicator_set _).
Qed.

Lemma recognize_value_indicator s :
  recognize_value ARI (VStr s) = VStr (canonical_indicator s).
Proof.
  unfold recognize_value, canonical_indicator. simpl.
  by rewrite strip_idem.
Qed.

Lemma normalize_value_not_str key v :
  is_str v = false → normalize_value key v = v.
Proof. by destruct v. Qed.

Lemma recognize_value_not_str k v :
  is_str v = false → recognize_value k v = v.
Proof. by destruct v. Qed.

Lemma normalize_value_is_str key v :
  is_str (normalize_value key v) = is_str v.
Proof.
  destruct v; simpl; try done.
  repeat case_bool_decide; done.
Qed.

Lemma recognize_value_is_str k v :
  is_str (recognize_value k v) = is_str v.
Proof.
  destruct v; simpl; try done.
  repeat case_bool_decide; done.
Qed.



(** What [_normalize] stores under each key. *)
Lemma lookup_normalize (addr : dict) (key : string) :
  _normalize addr !! key =
    match addr !! key with
    | Some v => Some (normalize_value key v)
    | None => if bool_decide (key = ARI) then Some (VStr "unknown") else None
    end.
Proof.
  unfold _normalize. cbv zeta.
  rewrite map_lookup_imap.
  destruct (addr !! "address_residential_indicator") as [a|] eqn:Ha; simpl.
  - rewrite map_lookup_imap. destruct (addr !! key) as [v|] eqn:Hv; simpl; [done|].
    case_bool_decide as Hk; [|done]. unfold ARI in Hk. congruence.
  - case_bool_decide as Hk.
    + subst key. rewrite lookup_insert_eq. unfold ARI. by rewrite Ha.
    + rewrite lookup_insert_ne by (unfold ARI in Hk; congruence).
      rewrite map_lookup_imap. by destruct (addr !! key).
Qed.

(** What [_recognize_one] stores under each key. *)
Lemma lookup_recognize_one (addr : dict) (k : string) :
  _recognize_one addr !! k =
    match addr !! k with
    | Some v =>
        if bool_decide (k = ARI) then
          Some (match v with VNone => VStr "unknown" | _ => recognize_value k v end)
        else Some (recognize_value k v)
    | None => if bool_decide (k = ARI) then Some (VStr "unknown") else None
    end.
Proof.
  unfold _recognize_one. cbv zeta.
  rewrite map_lookup_imap.
  destruct (addr !! "address_residential_indicator") as [a|] eqn:Ha; simpl.
  - case_bool_decide as Hk.
    + subst k. unfold ARI. rewrite Ha.
      destruct a; simpl; rewrite ?lookup_insert_eq, ?map_lookup_imap, ?Ha; done.
    + assert (k ≠ "address_residential_indicator") as Hk' by (unfold ARI in Hk; congruence).
      assert (map_imap (λ k0 v, Some (recognize_value k0 v)) addr !! k
              = recognize_value k <$> addr !! k) as Hin.
      { rewrite map_lookup_imap. by destruct (addr !! k). }
      destruct (recognize_value "address_residential_indicator" a);
        rewrite ?lookup_insert_ne by done; rewrite Hin; by destruct (addr !! k).
  - case_bool_decide as Hk.
    + subst k. rewrite lookup_insert_eq. unfold ARI. by rewrite Ha.
    + rewrite lookup_insert_ne by (unfold ARI in Hk; congruence).
      rewrite map_lookup_imap. by destruct (addr !! k).
Qed.

End NormalizeFacts.

(** ** Normalization of whole records *)

Section NormalizeRecord.
Import AddressValidationNormalize AddressRecognitionNormalize.




(** C3, as the code has it. For a record whose indicator is absent or a
    string, both normalizations store one of the three allowed strings:
    ["unknown"] when absent, the trimmed lower-cased string when that is in
    the closed set, ["unknown"] otherwise. The recognition pipeline maps a
    null indicator to ["unknown"] as well. Any other non-string value is
    kept as it is by both. *)
Theorem indicator_normalized (x : dict) :
  (x !! ARI = None →
     _normalize x !! ARI = Some (VStr "unknown")
     ∧ _recognize_one x !! ARI = Some (VStr "unknown"))
  ∧ (∀ s, x !! ARI = Some (VStr s) →
       in_indicator_set (canonical_indicator s) = true
       ∧ _normalize x !! ARI = Some (VStr (canonical_indicator s))
       ∧ _recognize_one x !! ARI = Some (VStr (canonical_indicator s)))
  ∧ (x !! ARI = Some VNone → _recognize_one x !! ARI = Some (VStr "unknown"))
  ∧ (∀ v, x !! ARI = Some v → is_str v = false → v ≠ VNone →
       _normalize x !! ARI = Some v ∧ _recognize_one x !! ARI = Some v).
Proof.
  rewrite lookup_normalize, lookup_recognize_one.
  split; [intros H | split; [intros s H | split; [intros H | intros v H Hs Hv]]];
    rewrite H.
  - done.
  - split; [apply canonical_indicator_in_set|].
    by rewrite normalize_value_indicator, recognize_value_indicator.
  - done.
  - rewrite normalize_value_not_str by done. by destruct v.
Qed.

(** C3 as stated fails: an integer indicator is passed through by both
    normalizations, so the normalized record does not carry one of the
    three allowed strings. *)
Lemma indicator_not_always_in_set :
  let x : dict := {[ARI := VInt 5]} in
  _normalize x !! ARI = Some (VInt 5)
  ∧ _recognize_one x !! ARI = Some (VInt 5)
  ∧ ¬ (∃ r, in_indicator_set r = true ∧ _normalize x !! ARI = Some (VStr r))
  ∧ ¬ (∃ r, in_indicator_set r = true ∧ _recognize_one x !! ARI = Some (VStr r)).
Proof.
  vm_compute. repeat split; try done; by intros (r & _ & Hr).
Qed.

(** The validation pipeline keeps a null indicator as null, where the
    recognition pipeline replaces it. *)
Lemma normalize_null_indicator :
  _normalize {[ARI := VNone]} !! ARI = Some VNone
  ∧ _recognize_one {[ARI := VNone]} !! ARI = Some (VStr "unknown").
Proof. split; reflexivity. Qed.

End NormalizeRecord.

(** ** Running session code *)

(** Unfolds the session operations so that a run reduces to a case analysis
    on the store. *)
Ltac run_op :=
  unfold in_new_session, open_session, begin, validated, raise, get_batch, add_batch,
    first_item, set_status, delete_items, with_pending, commit, rollback,
    mbind, mret, Op_bind, Op_ret;
  cbn [fst snd committed pending history batches items].

(** ** Requeue *)

Section Requeue.
Import AddressValidationService.

Lemma requeue_batch_missing (id : uuid) (d : Store AddressValidationItem) :
  batches d !! id = None →
  in_new_session (requeue_batch id) d = (Returned false, d, [d]).
Proof. intros Hb. unfold requeue_batch. run_op. by rewrite Hb. Qed.

Lemma requeue_batch_processing (id : uuid) (d : Store AddressValidationItem) b :
  batches d !! id = Some b → status b = processing →
  in_new_session (requeue_batch id) d = (Raised (RuntimeError "processing"), d, []).
Proof. intros Hb Hs. unfold requeue_batch. run_op. by rewrite Hb, Hs. Qed.


(** C6. Requeue of a batch whose status is [processing] fails with a
    Conflict (HTTP 409), which is not the NotFound (HTTP 404) an unknown id
    gets, and changes nothing: the database (status, payload and items of
    every batch) and the queue are as before the call. *)
Theorem requeue_processing_conflict (app : App) (id : uuid) (b : Batch) :
  batches (db app) !! id = Some b →
  status b = processing →
  requeue_validation_batch id app
    = (Raised (HTTPException 409 "batch is processing"), app)
  ∧ ∀ id', batches (db app) !! id' = None →
      fst (requeue_validation_batch id' app)
      = Raised (HTTPException 404 "batch_id not found").
Proof.
  intros Hb Hs. split.
  - unfold requeue_validation_batch.
    rewrite (requeue_batch_processing id (db app) b Hb Hs). by destruct app.
  - intros id' Hnone. unfold requeue_validation_batch.
    by rewrite (requeue_batch_missing id' (db app) Hnone).
Qed.


Lemma requeue_processing_conflict_witness :
  let app := {| db := one_batch_db 1 processing (Some [VDict (model_dump sample_address)]);
                redis := [] |} in
  requeue_validation_batch 1 app
    = (Raised (HTTPException 409 "batch is processing"), app)
  ∧ ∀ id', batches (db app) !! id' = None →
      fst (requeue_validation_batch id' app)
      = Raised (HTTPException 404 "batch_id not found").
Proof.
  exact (requeue_processing_conflict
           {| db := one_batch_db 1 processing (Some [VDict (model_dump sample_address)]);
              redis := [] |}
           1%N
           {| status := processing;
              request_payload := Some [VDict (model_dump sample_address)] |}
           eq_refl eq_refl).
Defined.



End Requeue.

(** ** Stores *)

Section StoreFacts.
Context {I : Type} `{ItemRow I}.

Lemma for_each_add_item {A} (f : A → I) (xs : list A) (s : Session I) :
  for_each (λ x, add_item (f x)) xs s
  = (Returned tt,
     {| committed := committed s;
        pending := with_items (f <$> xs) (pending s);
        history := history s |}).
Proof.
  revert s. induction xs as [|x xs IH]; intros s; cbn [for_each fmap list_fmap].
  - unfold mret, Op_ret, with_items. rewrite app_nil_r. by destruct s as [? []].
  - unfold mbind, Op_bind, add_item, with_pending. rewrite IH.
    unfold with_items. cbn. by rewrite <- app_assoc.
Qed.

Lemma items_of_with_status id id' st (d : Store I) :
  items_of id (with_status id' st d) = items_of id d.
Proof. done. Qed.

Lemma items_of_without_items id (d : Store I) : items_of id (without_items id d) = [].
Proof.
  unfold items_of, without_items. cbn.
  induction (items d) as [|it l IH]; [done|].
  rewrite filter_cons. case_decide as Hit.
  - rewrite filter_cons. by case_decide.
  - done.
Qed.

Lemma items_of_without_items_ne id id' (d : Store I) :
  id ≠ id' → items_of id (without_items id' d) = items_of id d.
Proof.
  intros Hne. unfold items_of, without_items. cbn.
  rewrite list_filter_filter. apply list_filter_iff.
  intros it. split; [tauto|]. intros Hit. split; [done|]. congruence.
Qed.

Lemma items_of_with_items id new (d : Store I) :
  items_of id (with_items new d) = items_of id d ++ filter (λ it, batch_id it = id) new.
Proof. unfold items_of, with_items. cbn. apply filter_app. Qed.

Lemma filter_all_of_batch {A} id (f : A → I) (xs : list A) :
  (∀ x, batch_id (f x) = id) →
  filter (λ it, batch_id it = id) (f <$> xs) = f <$> xs.
Proof.
  intros Hf. induction xs as [|x xs IH]; [done|].
  rewrite fmap_cons, filter_cons, decide_True by apply Hf. by rewrite IH.
Qed.

Lemma filter_none_of_batch {A} id id' (f : A → I) (xs : list A) :
  id ≠ id' → (∀ x, batch_id (f x) = id') →
  filter (λ it, batch_id it = id) (f <$> xs) = [].
Proof.
  intros Hne Hf. induction xs as [|x xs IH]; [done|].
  rewrite fmap_cons, filter_cons, decide_False; [done|]. rewrite Hf. congruence.
Qed.

Lemma lookup_with_status id st (d : Store I) b :
  batches d !! id = Some b →
  batches (with_status id st d) !! id
  = Some {| status := st; request_payload := request_payload b |}.
Proof. intros Hb. unfold with_status. cbn. by rewrite lookup_alter_eq, Hb. Qed.

Lemma lookup_with_status_ne id id' st (d : Store I) :
  id ≠ id' → batches (with_status id' st d) !! id = batches d !! id.
Proof. intros Hne. unfold with_status. cbn. by rewrite lookup_alter_ne. Qed.

Lemma validate_all_length {A} (mv : value → option A) payload xs :
  validate_all mv payload = Some xs → length xs = length payload.
Proof.
  revert xs. induction payload as [|a rest IH]; intros xs; cbn.
  - by intros [= <-].
  - destruct (mv a) as [x|]; [|done]. cbn.
    destruct (validate_all mv rest) as [xs'|]; [|done]. cbn.
    intros [= <-]. cbn. by rewrite (IH xs').
Qed.

End StoreFacts.

(** ** Process *)

Section Process.

(** One run of the validation job, by cases on the stored batch. *)
Lemma validate_addresses_batch_run (id : uuid) (d : Store AddressValidationItem) :
  validate_addresses_batch id d =
    match batches d !! id with
    | None => (Returned tt, d, [d])
    | Some b =>
        if bool_decide (status b = completed) && bool_decide (head (items_of id d) ≠ None)
        then (Returned tt, d, [d])
        else
          match default [] (request_payload b) with
          | [] => (Returned tt, with_status id failed d, [with_status id failed d])
          | payload =>
              match validate_all AddressIn_model_validate payload with
              | None => (Raised ValidationError, d, [])
              | Some addresses =>
                  let d' := regenerated id (AddressValidationService.item_for id <$> addresses) d in
                  (Returned tt, d', [d'])
              end
          end
    end.
Proof.
  unfold validate_addresses_batch, AddressValidationService.process_existing_batch.
  run_op. destruct (batches d !! id) as [b|]; [|done].
  destruct (bool_decide (status b = completed) && _); [done|].
  destruct (default [] (request_payload b)) as [|a rest]; [done|].
  cbn [fst snd committed pending history].
  destruct (validate_all AddressIn_model_validate (a :: rest)) as [addresses|]; [|done].
  cbn [fst snd committed pending history].
  rewrite for_each_add_item. done.
Qed.

(** One run of the recognition job, by cases on the stored batch. *)
Lemma recognize_addresses_batch_run (id : uuid) (d : Store AddressRecognitionItem) :
  recognize_addresses_batch id d =
    match batches d !! id with
    | None => (Returned tt, d, [])
    | Some b =>
        if bool_decide (status b = processing) || bool_decide (status b = completed)
        then (Returned tt, d, [])
        else
          match default [] (request_payload b) with
          | [] => (Returned tt, with_status id failed d, [with_status id failed d])
          | payload =>
              let d1 := with_status id processing d in
              match validate_all AddressRecognizeIn_model_validate payload with
              | None => (Raised ValidationError, d1, [d1])
              | Some addresses =>
                  let d2 :=
                    regenerated id
                      (AddressRecognitionService.item_for id
                         <$> (AddressRecognitionService.original_of <$> addresses)) d in
                  (Returned tt, d2, [d1; d2])
              end
          end
    end.
Proof.
  unfold recognize_addresses_batch, AddressRecognitionService.process_existing_batch.
  run_op. destruct (batches d !! id) as [b|] eqn:Hb; [|done].
  destruct (bool_decide (status b = processing) || _); [done|].
  destruct (default [] (request_payload b)) as [|a rest]; [done|].
  cbn [fst snd committed pending history].
  destruct (validate_all AddressRecognizeIn_model_validate (a :: rest)) as [addresses|]; [|done].
  cbn [fst snd committed pending history].
  rewrite (for_each_add_item
             (λ addr, AddressRecognitionService.item_for id
                        (AddressRecognitionService.original_of addr))).
  cbn [fst snd committed pending history].
  change (batches (with_items ?new (without_items id ?d0)) !! id) with (batches d0 !! id).
  rewrite (lookup_with_status id processing d b Hb).
  unfold regenerated. by rewrite <- list_fmap_compose.
Qed.

Lemma lookup_regenerated {I} `{ItemRow I} id (new : list I) (d : Store I) b :
  batches d !! id = Some b →
  batches (regenerated id new d) !! id
  = Some {| status := completed; request_payload := request_payload b |}.
Proof.
  intros Hb. unfold regenerated.
  rewrite (lookup_with_status id completed _
             {| status := processing; request_payload := request_payload b |}); [done|].
  change (batches (with_items new (without_items id ?d0)) !! id) with (batches d0 !! id).
  by apply lookup_with_status.
Qed.

Lemma items_of_regenerated {I} `{ItemRow I} {A} id (f : A → I) (xs : list A) (d : Store I) :
  (∀ x, batch_id (f x) = id) →
  items_of id (regenerated id (f <$> xs) d) = f <$> xs.
Proof.
  intros Hf. unfold regenerated.
  rewrite items_of_with_status, items_of_with_items, items_of_without_items.
  by rewrite filter_all_of_batch.
Qed.

Lemma items_match_payload_length {I A} `{ItemRow I}
    (mv : value → option A) (mk : uuid → A → I) id (s : Store I) :
  items_match_payload mv mk id s →
  ∃ b, batches s !! id = Some b
       ∧ length (items_of id s) = length (default [] (request_payload b)).
Proof.
  intros (b & addresses & Hb & Hv & ->). exists b. split; [done|].
  by rewrite length_fmap, (validate_all_length _ _ _ Hv).
Qed.

(** The part of C1 that holds: the recognition job does nothing on a
    [processing] or [completed] batch, and the validation job does nothing
    on a [completed] batch that has an item. *)
Lemma process_guard_noop (id : uuid) :
  (∀ (d : Store AddressRecognitionItem) b,
     batches d !! id = Some b →
     status b = processing ∨ status b = completed →
     recognize_addresses_batch id d = (Returned tt, d, []))
  ∧ (∀ (d : Store AddressValidationItem) b,
       batches d !! id = Some b →
       status b = completed → items_of id d ≠ [] →
       validate_addresses_batch id d = (Returned tt, d, [d])).
Proof.
  split.
  - intros d b Hb Hs. rewrite recognize_addresses_batch_run, Hb.
    by destruct Hs as [-> | ->].
  - intros d b Hb Hs Hit. rewrite validate_addresses_batch_run, Hb, Hs.
    destruct (items_of id d); done.
Qed.


(** C4, as the code has it. When the stored payload of a [queued] batch is
    not empty and does not validate as address records, the validation job
    raises the [ValidationError] to its caller; the unit of work is rolled
    back, so the database is as before (the batch is still [queued]) and
    nothing was committed. *)
Theorem malformed_payload_raises (id : uuid) (d : Store AddressValidationItem) (b : Batch) :
  batches d !! id = Some b →
  status b = queued →
  default [] (request_payload b) ≠ [] →
  validate_all AddressIn_model_validate (default [] (request_payload b)) = None →
  validate_addresses_batch id d = (Raised ValidationError, d, []).
Proof.
  intros Hb Hs Hne Hbad. rewrite validate_addresses_batch_run, Hb, Hs.
  rewrite bool_decide_eq_false_2 by done. cbn [andb].
  destruct (default [] (request_payload b)) as [|a rest]; [done|].
  by rewrite Hbad.
Qed.

Lemma malformed_payload_raises_witness :
  let before : Store AddressValidationItem := one_batch_db 1 queued (Some [VDict ∅]) in
  validate_addresses_batch 1 before = (Raised ValidationError, before, []).
Proof.
  apply (malformed_payload_raises 1 (one_batch_db 1 queued (Some [VDict ∅]))
           {| status := queued; request_payload := Some [VDict ∅] |});
    [reflexivity | reflexivity | discriminate | reflexivity].
Defined.

(** C4 as stated fails: on a [queued] batch whose payload is one record
    without the required fields, the job does not return normally and the
    batch is not marked [failed]. *)
Lemma malformed_payload_not_marked_failed :
  let before : Store AddressValidationItem := one_batch_db 1 queued (Some [VDict ∅]) in
  let run := validate_addresses_batch 1 before in
  AddressIn_model_validate (VDict ∅) = None
  ∧ job_outcome run = Raised ValidationError
  ∧ status <$> batches (job_db run) !! 1%N = Some queued
  ∧ ¬ (job_outcome run = Returned tt
       ∧ status <$> batches (job_db run) !! 1%N = Some failed).
Proof. vm_compute. repeat split; try done. by intros [? _]. Qed.

(** C2, as the code has it. In every snapshot committed during Process the
    items of the batch are either those it had before the call or exactly
    one item per record of its stored payload, in order: no partial set is
    ever committed. The validation job is one unit of work. The recognition
    job commits at most twice: the status [processing] alone first, then
    deletion, insertion and the status [completed] together. *)
Theorem process_never_commits_partial_items (id : uuid) :
  (∀ d : Store AddressValidationItem,
     let run := validate_addresses_batch id d in
     one_unit_of_work d run
     ∧ ∀ s, s ∈ job_history run →
         items_of id s = items_of id d
         ∨ items_match_payload AddressIn_model_validate
             AddressValidationService.item_for id s)
  ∧ (∀ d : Store AddressRecognitionItem,
       let run := recognize_addresses_batch id d in
       (∀ s, s ∈ job_history run →
          items_of id s = items_of id d
          ∨ items_match_payload AddressRecognizeIn_model_validate
              (λ id addr, AddressRecognitionService.item_for id
                            (AddressRecognitionService.original_of addr)) id s)
       ∧ (job_history run = []
          ∨ job_history run = [job_db run]
          ∨ job_history run = [with_status id processing d; job_db run])).
Proof.
  split.
  - intros d run. subst run. rewrite validate_addresses_batch_run.
    destruct (batches d !! id) as [b|] eqn:Hb.
    2:{ split; intros s ->%list_elem_of_singleton; by left. }
    destruct (bool_decide (status b = completed) && _).
    { split; intros s ->%list_elem_of_singleton; by left. }
    destruct (default [] (request_payload b)) as [|a rest] eqn:Hp.
    { split; intros s ->%list_elem_of_singleton; [by right|by left]. }
    destruct (validate_all AddressIn_model_validate (a :: rest)) as [addresses|] eqn:Hv.
    2:{ split; intros s Hs; by apply elem_of_nil in Hs. }
    cbv zeta. split; intros s ->%list_elem_of_singleton; [by right|].
    right. exists {| status := completed; request_payload := request_payload b |}, addresses.
    split; [by apply lookup_regenerated|]. cbn [request_payload]. rewrite Hp.
    split; [done|]. by apply items_of_regenerated.
  - intros d run. subst run. rewrite recognize_addresses_batch_run.
    destruct (batches d !! id) as [b|] eqn:Hb.
    2:{ split; [|by left]. intros s Hs; by apply elem_of_nil in Hs. }
    destruct (bool_decide (status b = processing) || _).
    { split; [|by left]. intros s Hs; by apply elem_of_nil in Hs. }
    destruct (default [] (request_payload b)) as [|a rest] eqn:Hp.
    { split; [|by right; left]. intros s ->%list_elem_of_singleton. by left. }
    destruct (validate_all AddressRecognizeIn_model_validate (a :: rest))
      as [addresses|] eqn:Hv; cbv zeta.
    2:{ split; [|by right; left]. intros s ->%list_elem_of_singleton. by left. }
    split; [|by right; right].
    intros s [->|[->|[]%elem_of_nil]%elem_of_cons]%elem_of_cons; [by left|].
    right. exists {| status := completed; request_payload := request_payload b |}, addresses.
    split; [by apply lookup_regenerated|]. cbn [request_payload]. rewrite Hp.
    split; [done|].
    rewrite (items_of_regenerated id (AddressRecognitionService.item_for id)) by done.
    by rewrite <- list_fmap_compose.
Qed.

(** C2 as stated fails on the recognition pipeline: the status change to
    [processing] is committed before, and apart from, the insertion of the
    items, so a reader can see a snapshot that is neither the database
    before the job nor the database after it. *)
Lemma recognition_process_not_one_unit_of_work :
  let before : Store AddressRecognitionItem :=
    one_batch_db 1 queued (Some [VDict {[ "text" := VStr "1 Main St" ]}]) in
  ¬ one_unit_of_work before (recognize_addresses_batch 1 before).
Proof.
  intros before Hatomic.
  destruct (Hatomic (with_status 1 processing before)) as [Heq|Heq].
  - vm_compute. apply list_elem_of_here.
  - apply (f_equal (λ s, status <$> batches s !! 1%N)) in Heq. vm_compute in Heq. done.
  - apply (f_equal (λ s, status <$> batches s !! 1%N)) in Heq. vm_compute in Heq. done.
Qed.

End Process.

(** ** Schema instances *)

Section SchemaFacts.

Lemma req_str_field_Some d k lo hi s :
  req_str_field d k lo hi = Some s →
  d !! k = Some (VStr s)
  ∧ (lo <=? String.length s)%nat = true
  ∧ match hi with Some m => (String.length s <=? m)%nat = true | None => True end.
Proof.
  unfold req_str_field. destruct (d !! k) as [[| | |s'| |]|]; try done.
  destruct (lo <=? String.length s')%nat eqn:Hlo; [|done].
  destruct hi as [m|]; cbn.
  - destruct (String.length s' <=? m)%nat eqn:Hhi; [|done]. by intros [= <-].
  - by intros [= <-].
Qed.

Lemma indicator_field_in_set d k : in_indicator_set (indicator_field d k) = true.
Proof.
  unfold indicator_field, normalize_residential_indicator.
  destruct (d !! k) as [[| | |s| |]|]; try done.
  apply canonical_indicator_in_set.
Qed.

(** Every instance [model_validate] builds satisfies the schema. *)
Lemma AddressIn_model_validate_ok raw a :
  AddressIn_model_validate raw = Some a → AddressIn_ok a = true.
Proof.
  destruct raw as [| | | | |d]; try done. unfold AddressIn_model_validate.
  intros Hv. repeat (apply bind_Some in Hv as (? & ? & Hv)).
  injection Hv as <-. unfold AddressIn_ok. cbn.
  repeat match goal with
         | Hr : req_str_field _ _ _ _ = Some _ |- _ =>
             apply req_str_field_Some in Hr as (_ & ? & ?)
         end.
  rewrite indicator_field_in_set.
  repeat (apply andb_true_intro; split); done.
Qed.

Lemma lookup_model_dump_indicator a :
  model_dump a !! "address_residential_indicator"
  = Some (VStr (address_residential_indicator a)).
Proof. reflexivity. Qed.

(** Validating the dump of a well-formed instance gives the instance. *)
Lemma AddressIn_model_validate_dump a :
  AddressIn_ok a = true → AddressIn_model_validate (VDict (model_dump a)) = Some a.
Proof.
  unfold AddressIn_ok. rewrite !andb_true_iff.
  intros (((((H1 & H2) & H3) & H4) & H5) & H6).
  destruct a as [n p e c a1 a2 a3 ci st po co ari].
  cbn [name phone email company_name address_line1 address_line2 address_line3
       city_locality state_province postal_code country_code
       address_residential_indicator] in *.
  unfold AddressIn_model_validate, opt_str_field, req_str_field, postal_field,
    indicator_field, model_dump.
  cbn [name phone email company_name address_line1 address_line2 address_line3
       city_locality state_province postal_code country_code
       address_residential_indicator].
  repeat first [ rewrite lookup_insert_eq | rewrite lookup_insert_ne by done ].
  rewrite H1, H2, H3, H4, H5.
  change (normalize_residential_indicator (VStr ari)) with (canonical_indicator ari).
  rewrite (canonical_indicator_fixed ari H6).
  by destruct n, p, e, c, a2, a3, po.
Qed.

(** The well-formed instances are exactly those [model_validate] can
    build. *)
Lemma AddressIn_ok_iff a :
  AddressIn_ok a = true ↔ ∃ raw, AddressIn_model_validate raw = Some a.
Proof.
  split.
  - intros Hok. exists (VDict (model_dump a)). by apply AddressIn_model_validate_dump.
  - intros [raw Hraw]. by apply (AddressIn_model_validate_ok raw).
Qed.

(** On the dump of a well-formed instance the indicator is already in
    canonical form, so the copy made for the response is the dump itself. *)
Lemma original_for_out_dump a :
  AddressIn_ok a = true →
  AddressValidationService.original_for_out (model_dump a) = model_dump a.
Proof.
  intros Hok. unfold AddressValidationService.original_for_out.
  rewrite lookup_model_dump_indicator.
  assert (in_indicator_set (address_residential_indicator a) = true) as Hin.
  { unfold AddressIn_ok in Hok. by apply andb_true_iff in Hok as [_ ?]. }
  change (PyStr.lower (PyStr.strip ?s)) with (PyStr.lower (PyStr.strip s)).
  fold (canonical_indicator (address_residential_indicator a)).
  rewrite (canonical_indicator_fixed _ Hin).
  apply insert_id, lookup_model_dump_indicator.
Qed.

Lemma original_out_ok a : AddressIn_ok a = true → original_out a = Some a.
Proof.
  intros Hok. unfold original_out.
  by rewrite original_for_out_dump, AddressIn_model_validate_dump.
Qed.

End SchemaFacts.

(** ** Synchronous create *)

Section SyncCreate.
Import AddressValidationService.

Lemma validate_one_run new_id a (s : Session AddressValidationItem) :
  validate_one new_id a s
  = (match result_for a with
     | Some r => Returned r
     | None => Raised ValidationError
     end,
     {| committed := committed s;
        pending := with_items [item_for new_id a] (pending s);
        history := history s |}).
Proof.
  unfold validate_one, result_for, original_out, matched_out. cbn [_status_and_messages].
  unfold add_item. run_op.
  destruct (AddressIn_model_validate (VDict (original_for_out (model_dump a)))); [|done].
  cbn. by destruct (AddressIn_model_validate (VDict (_normalize (model_dump a)))).
Qed.

Lemma validate_loop_run new_id P (s : Session AddressValidationItem) :
  ∃ s',
    for_each_collect (validate_one new_id) P s
    = (match mapM result_for P with
       | Some rs => Returned rs
       | None => Raised ValidationError
       end, s')
    ∧ committed s' = committed s ∧ history s' = history s
    ∧ (is_Some (mapM result_for P) →
       pending s' = with_items (item_for new_id <$> P) (pending s)).
Proof.
  revert s. induction P as [|a P IH]; intros s.
  - exists s. cbn. repeat split; try done. intros _. unfold with_items.
    rewrite app_nil_r. by destruct (pending s).
  - cbn [for_each_collect]. unfold mbind at 1. unfold Op_bind at 1.
    rewrite validate_one_run.
    change (mapM result_for (a :: P))
      with (result_for a ≫= λ r, mapM result_for P ≫= λ rs, Some (r :: rs)).
    destruct (result_for a) as [r|]; cbn [mbind option_bind].
    2:{ eexists. repeat split; try done; by intros [? [=]]. }
    unfold mbind at 1. unfold Op_bind at 1.
    destruct (IH {| committed := committed s;
                    pending := with_items [item_for new_id a] (pending s);
                    history := history s |}) as (s' & -> & Hc & Hh & Hp).
    exists s'. cbn [committed history pending] in *.
    destruct (mapM result_for P) as [rs|]; cbn [mbind option_bind].
    + repeat split; try done. intros _. rewrite Hp by done.
      unfold with_items. cbn. by rewrite <- app_assoc.
    + repeat split; try done; by intros [? [=]].
Qed.

(** One run of the synchronous create of the validation pipeline, for a
    generated id that is not in use. *)
Lemma validate_and_store_run new_id P (d : Store AddressValidationItem) :
  batches d !! new_id = None →
  in_new_session (validate_and_store new_id P) d
  = match mapM result_for P with
    | Some rs =>
        let payload := (λ a, VDict (model_dump a)) <$> P in
        let d' :=
          with_items (item_for new_id <$> P)
            (with_batch new_id {| status := completed; request_payload := Some payload |} d) in
        (Returned (new_id, rs), d', [d'])
    | None => (Raised ValidationError, d, [])
    end.
Proof.
  intros Hfresh. unfold validate_and_store. run_op. rewrite Hfresh.
  cbn [fst snd committed pending history].
  match goal with
  | |- context [for_each_collect _ P ?s0] =>
      destruct (validate_loop_run new_id P s0) as (s' & -> & Hc & Hh & Hp)
  end.
  cbn [committed pending history] in *.
  destruct (mapM result_for P) as [rs|].
  - rewrite Hp, Hh by done. done.
  - by rewrite Hc, Hh.
Qed.

Lemma result_for_original a r :
  AddressIn_ok a = true → result_for a = Some r → vr_original_address r = a.
Proof.
  intros Hok. unfold result_for. rewrite (original_out_ok a Hok). cbn.
  destruct (matched_out a); [|done]. by intros [= <-].
Qed.

Lemma results_for_original P rs :
  Forall (λ a, AddressIn_ok a = true) P →
  mapM result_for P = Some rs → vr_original_address <$> rs = P.
Proof.
  intros Hok Hrs%mapM_Some_1. induction Hrs as [|a r P rs Hr _ IH]; [done|].
  apply Forall_cons in Hok as [Ha HP]. cbn.
  by rewrite (result_for_original a r Ha Hr), IH.
Qed.

(** X11. The part of C7 that holds: when the response records of all addresses
    validate, the synchronous create of the validation pipeline commits, in
    one unit of work, one [completed] batch with one item per address, and
    returns one result per address, in order. *)
Lemma validate_and_store_persists new_id P (d : Store AddressValidationItem) rs :
  batches d !! new_id = None →
  Forall (λ a, AddressIn_ok a = true) P →
  mapM result_for P = Some rs →
  let run := in_new_session (validate_and_store new_id P) d in
  job_outcome run = Returned (new_id, rs)
  ∧ batches (job_db run)
    = <[new_id := {| status := completed;
                     request_payload := Some ((λ a, VDict (model_dump a)) <$> P) |}]>
        (batches d)
  ∧ items (job_db run) = items d ++ (item_for new_id <$> P)
  ∧ job_history run = [job_db run]
  ∧ length rs = length P
  ∧ vr_original_address <$> rs = P.
Proof.
  intros Hfresh Hok Hrs run. subst run.
  rewrite (validate_and_store_run new_id P d Hfresh), Hrs. cbv zeta.
  repeat split; try done.
  - symmetry. by apply (length_mapM result_for).
  - by apply results_for_original.
Qed.

(** C7 fails: an address whose first line is one space passes the input
    schema, its normalized form has an empty first line, which the response
    schema rejects; the synchronous create raises, persists no batch and no
    item, and returns no result. *)
Theorem validate_and_store_raises_on_blank_line :
  let run := in_new_session (validate_and_store 1 [blank_line_address])
               (empty_db : Store AddressValidationItem) in
  AddressIn_model_validate (VDict (model_dump blank_line_address)) = Some blank_line_address
  ∧ _normalize (model_dump blank_line_address) !! "address_line1" = Some (VStr "")
  ∧ job_outcome run = Raised ValidationError
  ∧ batches (job_db run) !! 1%N = None
  ∧ items (job_db run) = []
  ∧ job_history run = [].
Proof. vm_compute. done. Qed.

(** C9, as the code has it. The instances the service receives carry an
    indicator that is already canonical, so the canonical copy made for the
    response changes nothing: when the synchronous create returns, the
    echoed original addresses are the submitted instances, and their dumps
    are the original addresses stored in the new items. *)
Theorem sync_response_original_is_stored new_id P (d : Store AddressValidationItem) rs :
  batches d !! new_id = None →
  Forall (λ a, AddressIn_ok a = true) P →
  job_outcome (in_new_session (validate_and_store new_id P) d) = Returned (new_id, rs) →
  let after := job_db (in_new_session (validate_and_store new_id P) d) in
  vr_original_address <$> rs = P
  ∧ Forall (λ r, in_indicator_set
                   (address_residential_indicator (vr_original_address r)) = true) rs
  ∧ ∃ new_items,
      items after = items d ++ new_items
      ∧ vi_original_address <$> new_items = model_dump <$> (vr_original_address <$> rs).
Proof.
  intros Hfresh Hok. rewrite (validate_and_store_run new_id P d Hfresh).
  destruct (mapM result_for P) as [rs'|] eqn:Hrs; [|done].
  cbv zeta. unfold job_outcome, job_db. cbn [fst snd]. intros [= <-].
  pose proof (results_for_original P rs' Hok Hrs) as Horig.
  split; [done|]. split.
  - apply (proj1 (Forall_fmap vr_original_address
                    (λ a, in_indicator_set (address_residential_indicator a) = true) rs')).
    rewrite Horig. eapply Forall_impl; [exact Hok|]. intros a Ha. cbn.
    unfold AddressIn_ok in Ha. by apply andb_true_iff in Ha as [_ ?].
  - exists (item_for new_id <$> P). split; [done|].
    rewrite Horig, <- list_fmap_compose. by apply list_fmap_ext.
Qed.

Lemma sync_response_original_is_stored_witness :
  let run := in_new_session (validate_and_store 1 [sample_address])
               (empty_db : Store AddressValidationItem) in
  job_outcome run = Returned (1%N, sample_results)
  ∧ vr_original_address <$> sample_results = [sample_address]
  ∧ Forall (λ r, in_indicator_set
                   (address_residential_indicator (vr_original_address r)) = true)
      sample_results
  ∧ ∃ new_items,
      items (job_db run) = [] ++ new_items
      ∧ vi_original_address <$> new_items
        = model_dump <$> (vr_original_address <$> sample_results).
Proof.
  assert (job_outcome (in_new_session (validate_and_store 1 [sample_address])
                         (empty_db : Store AddressValidationItem))
          = Returned (1%N, sample_results)) as Hrun by (vm_compute; reflexivity).
  split; [exact Hrun|].
  apply (sync_response_original_is_stored 1 [sample_address] empty_db sample_results);
    [reflexivity | repeat constructor | exact Hrun].
Defined.

(** C9 as stated fails: there is no input for which the echoed original
    address differs from the stored one. Whatever record is submitted, the
    instance built from it has a canonical indicator, and the response
    echoes that instance. *)
Lemma echoed_original_never_differs_from_stored :
  ¬ ∃ (raw : value) (a out : AddressIn) (id : uuid),
      AddressIn_model_validate raw = Some a
      ∧ original_out a = Some out
      ∧ model_dump out ≠ vi_original_address (item_for id a).
Proof.
  intros (raw & a & out & id & Hraw & Hout & Hne).
  apply AddressIn_model_validate_ok in Hraw.
  rewrite (original_out_ok a Hraw) in Hout. injection Hout as <-.
  by apply Hne.
Qed.

End SyncCreate.

Section SyncRecognize.
Import AddressRecognitionService.

(** The result record of the recognition pipeline is never built from
    [AddressOut] instances. *)
Lemma recognize_one_raises new_id a (s : Session AddressRecognitionItem) :
  ∃ s', recognize_one new_id a s = (Raised ValidationError, s')
        ∧ committed s' = committed s ∧ history s' = history s.
Proof.
  unfold recognize_one, add_item. run_op.
  destruct (AddressIn_model_validate (VDict (model_dump a))); [|by eexists].
  destruct (AddressIn_model_validate (VDict (_recognize_one (model_dump a)))); by eexists.
Qed.

(** X24. The synchronous create of the recognition pipeline raises on every
    payload that is not empty, and commits nothing. *)
Lemma recognize_and_store_raises new_id a P (d : Store AddressRecognitionItem) :
  batches d !! new_id = None →
  in_new_session (recognize_and_store new_id (a :: P)) d = (Raised ValidationError, d, []).
Proof.
  intros Hfresh. unfold recognize_and_store. cbn [for_each_collect].
  run_op. rewrite Hfresh. cbn [fst snd committed pending history].
  match goal with
  | |- context [recognize_one new_id a ?s0] =>
      destruct (recognize_one_raises new_id a s0) as (s' & -> & Hc & Hh)
  end.
  cbn [committed history] in *. by rewrite Hc, Hh.
Qed.

End SyncRecognize.

(** ** Two concurrent Process calls *)

Section Workers.

(** C5 fails on the recognition pipeline: its [process_existing_batch]
    reads the batch with [session.get], without a row lock. When two workers
    interleave round trip by round trip on a [queued] batch of one record,
    both pass the status guard, both delete (nothing) and both insert: two
    item-generation passes, and two items for a payload of length one. *)
Theorem recognition_race_duplicates_items :
  let payload := [VDict {[ "text" := VStr "1 Main St" ]}] in
  let start : World recognition_point AddressRecognitionItem :=
    both_start r_start (one_batch_db 1 queued (Some payload)) 0 in
  let W := run (recognition_step 1)
             [worker_1; worker_2; worker_1; worker_2;
              worker_1; worker_2; worker_1; worker_2] start in
  at_1 W = r_done (Returned tt)
  ∧ at_2 W = r_done (Returned tt)
  ∧ status <$> batches (sh_db (shared W)) !! 1%N = Some completed
  ∧ length payload = 1
  ∧ length (items_of 1 (sh_db (shared W))) = 2
  ∧ sh_next (shared W) = 2%N
  ∧ snd <$> items_of 1 (sh_db (shared W))
    = [AddressRecognitionService.item_for 1 ∅; AddressRecognitionService.item_for 1 ∅].
Proof. vm_compute. done. Qed.

(** *** The validation pipeline under the row lock *)

Lemma keyed_length {I} next (new : list I) : length (keyed next new) = length new.
Proof. revert next. induction new as [|it new IH]; intros next; cbn; [done|]. by rewrite IH. Qed.

Lemma keyed_snd {I} next (new : list I) : snd <$> keyed next new = new.
Proof. revert next. induction new as [|it new IH]; intros next; cbn; [done|]. by rewrite IH. Qed.

Lemma keyed_all_of_batch {I} `{ItemRow I} id next (new : list I) :
  Forall (λ it, batch_id it = id) new →
  filter (λ r : N * I, batch_id r = id) (keyed next new) = keyed next new.
Proof.
  revert next. induction new as [|it new IH]; intros next Hall; [done|].
  apply Forall_cons in Hall as [Hit Hall]. cbn [keyed].
  rewrite filter_cons_True by exact Hit. by rewrite IH.
Qed.

(** A delete that ran on the rows leaves none of the batch behind. *)
Lemma filter_hit_rows {I} `{ItemRow I} id (rows : list (N * I)) :
  filter (λ r : N * I, batch_id r = id)
    (filter (λ r, fst r ∉ fst <$> filter (λ r : N * I, batch_id r = id) rows) rows) = [].
Proof.
  rewrite list_filter_filter.
  assert (∀ l, (∀ r, r ∈ l → r ∈ rows) →
               filter (λ r : N * I,
                         batch_id r = id
                         ∧ fst r ∉ fst <$> filter (λ r : N * I, batch_id r = id) rows) l = [])
    as Hgen.
  { induction l as [|r l IH]; intros Hsub; [done|].
    rewrite filter_cons_False.
    - apply IH. intros r' Hr'. apply Hsub. by apply list_elem_of_further.
    - intros [Hb Hnot]. apply Hnot. apply list_elem_of_fmap_2.
      apply list_elem_of_filter. split; [done|]. apply Hsub, list_elem_of_here. }
  by apply Hgen.
Qed.

Section ValidationWorkers.
Import AddressValidationService.
Context (id : uuid) (d : Store (N * AddressValidationItem)) (next : N)
        (b : Batch) (addresses : list AddressIn).
Hypothesis Hbatch : batches d !! id = Some b.
Hypothesis Hqueued : status b = queued.
Hypothesis Hvalid :
  validate_all AddressIn_model_validate (default [] (request_payload b)) = Some addresses.
Hypothesis Hnonempty : addresses ≠ [].

#[local] Abbreviation after_pass := (after_pass_of id d next addresses).
#[local] Abbreviation completed_batch := (completed_of b).
#[local] Abbreviation serialized := (serialized_worlds id d next b addresses).

Lemma payload_nonempty : ∃ a rest, default [] (request_payload b) = a :: rest.
Proof.
  destruct (default [] (request_payload b)) as [|a rest]; [|by eauto].
  cbn in Hvalid. injection Hvalid as <-. done.
Qed.

Lemma after_pass_batch : batches (sh_db after_pass) !! id = Some completed_batch.
Proof.
  unfold after_pass_of, commit_items. cbn [sh_db].
  by rewrite (lookup_with_status id completed _ b).
Qed.

Lemma after_pass_items :
  items_of id (sh_db after_pass) = keyed next (item_for id <$> addresses).
Proof.
  unfold after_pass_of, commit_items. cbn [sh_db sh_next].
  rewrite items_of_with_status. unfold items_of at 1. cbn [items].
  rewrite filter_app. unfold items_of. rewrite filter_hit_rows. cbn [app].
  apply keyed_all_of_batch, Forall_fmap, Forall_true. done.
Qed.

Lemma after_pass_has_item : head (items_of id (sh_db after_pass)) ≠ None.
Proof.
  rewrite after_pass_items. destruct addresses as [|a rest]; [done|]. done.
Qed.

Lemma turn_serialized w W :
  serialized W → serialized (turn (validation_step id) w W).
Proof.
  destruct payload_nonempty as (a & rest & Hpayload).
  intros HW. destruct HW as [sh Hd Hn Hl | w0 p sh Hp Hd Hn Hl | w0 sh Hd Hn Hl
                            | w0 sh Hd Hn Hl | sh Hd Hn Hl].
  - (* nobody has started: the worker takes the lock *)
    destruct w; cbn; rewrite Hl, Hd, Hbatch.
    + apply (ser_first worker_1 (v_locked b)); cbn; rewrite ?lookup_insert_eq; auto.
    + apply (ser_first worker_2 (v_locked b)); cbn; rewrite ?lookup_insert_eq; auto.
  - (* one worker at work *)
    destruct (decide (w = w0)) as [->|Hne].
    + destruct Hp as [-> | [-> | ->]].
      * assert (turn (validation_step id) w0 (world_of w0 (v_locked b) v_start sh)
                = world_of w0 (v_processing b) v_start sh) as ->.
        { destruct w0; cbn; rewrite Hqueued, Hpayload; done. }
        apply ser_first; auto.
      * assert (turn (validation_step id) w0 (world_of w0 (v_processing b) v_start sh)
                = world_of w0 (v_deleted b (fst <$> items_of id d)) v_start sh) as ->.
        { destruct w0; cbn; unfold hit_rows; rewrite Hd; done. }
        apply ser_first; auto.
      * assert (turn (validation_step id) w0
                  (world_of w0 (v_deleted b (fst <$> items_of id d)) v_start sh)
                = world_of w0 (v_done (Returned tt)) v_start
                    (release id (commit_items id (fst <$> items_of id d)
                                   (item_for id <$> addresses) true sh))) as ->.
        { destruct w0; cbn; rewrite Hvalid; done. }
        apply ser_between; cbn; rewrite ?Hd, ?Hn, ?lookup_delete_eq; done.
    + assert (turn (validation_step id) w (world_of w0 p v_start sh)
              = world_of w0 p v_start sh) as ->.
      { destruct w, w0; try done; cbn; rewrite Hl; done. }
      by apply ser_first.
  - (* one worker has finished, the other has not started *)
    destruct (decide (w = w0)) as [->|Hne].
    + assert (turn (validation_step id) w0 (world_of w0 (v_done (Returned tt)) v_start sh)
              = world_of w0 (v_done (Returned tt)) v_start sh) as ->.
      { by destruct w0. }
      by apply ser_between.
    + assert (turn (validation_step id) w (world_of w0 (v_done (Returned tt)) v_start sh)
              = world_of w0 (v_done (Returned tt)) (v_locked completed_batch)
                  (acquire id (other w0) sh)) as ->.
      { destruct w, w0; try done; cbn; rewrite Hl, Hd, after_pass_batch; done. }
      apply ser_second; cbn; rewrite ?lookup_insert_eq; done.
  - (* the second worker meets the guard *)
    destruct (decide (w = w0)) as [->|Hne].
    + assert (turn (validation_step id) w0
                (world_of w0 (v_done (Returned tt)) (v_locked completed_batch) sh)
              = world_of w0 (v_done (Returned tt)) (v_locked completed_batch) sh) as ->.
      { by destruct w0. }
      by apply ser_second.
    + assert (turn (validation_step id) w
                (world_of w0 (v_done (Returned tt)) (v_locked completed_batch) sh)
              = world_of worker_1 (v_done (Returned tt)) (v_done (Returned tt))
                  (release id sh)) as ->.
      { pose proof after_pass_has_item as Hitem.
        destruct w, w0; try done; cbn; rewrite Hd;
          rewrite (bool_decide_eq_true_2 _ Hitem); done. }
      apply ser_end; cbn; rewrite ?lookup_delete_eq; done.
  - (* both have finished *)
    assert (turn (validation_step id) w
              (world_of worker_1 (v_done (Returned tt)) (v_done (Returned tt)) sh)
            = world_of worker_1 (v_done (Returned tt)) (v_done (Returned tt)) sh) as ->.
    { by destruct w. }
    by apply ser_end.
Qed.

Lemma run_serialized schedule W :
  serialized W → serialized (run (validation_step id) schedule W).
Proof.
  revert W. induction schedule as [|w schedule IH]; intros W HW; [done|].
  cbn. apply IH. by apply turn_serialized.
Qed.

(** X19. The part of C5 that holds. Two validation workers that process the same
    [queued] batch with a valid payload, not empty, serialize on the row lock
    whatever the schedule: once both have finished, both returned normally,
    the batch is [completed], its items are one per payload record, and the
    primary keys handed out show one item-generation pass. *)
Lemma validation_workers_serialize schedule :
  let W := run (validation_step id) schedule (both_start v_start d next) in
  (∃ r1 r2, at_1 W = v_done r1 ∧ at_2 W = v_done r2) →
  at_1 W = v_done (Returned tt) ∧ at_2 W = v_done (Returned tt)
  ∧ batches (sh_db (shared W)) !! id = Some completed_batch
  ∧ snd <$> items_of id (sh_db (shared W)) = item_for id <$> addresses
  ∧ length (items_of id (sh_db (shared W))) = length (default [] (request_payload b))
  ∧ sh_next (shared W) = (next + N.of_nat (length addresses))%N.
Proof.
  intros W (r1 & r2 & H1 & H2).
  assert (serialized W) as HW.
  { apply run_serialized. by apply (ser_start {| sh_db := d; sh_next := next; sh_lock := ∅ |}). }
  destruct HW as [sh Hd Hn Hl | w0 p sh Hp Hd Hn Hl | w0 sh Hd Hn Hl
                 | w0 sh Hd Hn Hl | sh Hd Hn Hl].
  - done.
  - destruct w0; cbn in H1, H2; done.
  - destruct w0; cbn in H1, H2; done.
  - destruct w0; cbn in H1, H2; done.
  - cbn [world_of at_1 at_2 shared]. rewrite Hd, Hn.
    rewrite after_pass_batch, after_pass_items, keyed_snd, keyed_length, length_fmap.
    repeat split; try done.
    + apply (validate_all_length _ _ _ Hvalid).
    + unfold after_pass_of, commit_items. cbn [sh_next]. by rewrite length_fmap.
Qed.

End ValidationWorkers.

(** The lemma at work: two validation workers on a queued batch of one
    record, the second one asking for the lock while the first holds it. *)
Lemma validation_workers_serialize_example :
  let d : Store (N * AddressValidationItem) :=
    one_batch_db 1 queued (Some [VDict (model_dump sample_address)]) in
  let W := run (validation_step 1)
             [worker_1; worker_2; worker_1; worker_2; worker_1; worker_1; worker_2; worker_2]
             (both_start v_start d 0) in
  at_1 W = v_done (Returned tt) ∧ at_2 W = v_done (Returned tt)
  ∧ batches (sh_db (shared W)) !! 1%N
    = Some {| status := completed;
              request_payload := Some [VDict (model_dump sample_address)] |}
  ∧ snd <$> items_of 1 (sh_db (shared W))
    = [AddressValidationService.item_for 1 sample_address]
  ∧ length (items_of 1 (sh_db (shared W))) = 1
  ∧ sh_next (shared W) = 1%N.
Proof.
  apply (validation_workers_serialize 1
           (one_batch_db 1 queued (Some [VDict (model_dump sample_address)])) 0
           {| status := queued;
              request_payload := Some [VDict (model_dump sample_address)] |}
           [sample_address]);
    [reflexivity | reflexivity | by vm_compute | discriminate |].
  exists (Returned tt), (Returned tt). by vm_compute.
Defined.

(** *** One worker alone behaves as the job run in one session *)

Section WorkerAlone.
Context {I : Type} `{ItemRow I}.

Lemma items_of_store_of id (sh : Shared I) :
  items_of id (store_of sh) = snd <$> items_of id (sh_db sh).
Proof.
  unfold items_of, store_of. cbn [items].
  induction (items (sh_db sh)) as [|r rows IH]; [done|].
  rewrite fmap_cons, !filter_cons.
  change (batch_id r) with (batch_id (snd r)).
  case_decide; by rewrite ?fmap_cons, IH.
Qed.

Lemma head_items_of_store_of id (sh : Shared I) :
  bool_decide (head (items_of id (store_of sh)) ≠ None)
  = bool_decide (head (items_of id (sh_db sh)) ≠ None).
Proof. rewrite items_of_store_of. by destruct (items_of id (sh_db sh)). Qed.

Lemma key_determines_row (rows : list (N * I)) r r' :
  NoDup (fst <$> rows) → r ∈ rows → r' ∈ rows → fst r = fst r' → r = r'.
Proof.
  induction rows as [|r0 rows IH]; intros Hnd Hr Hr' Hk.
  - by apply elem_of_nil in Hr.
  - rewrite fmap_cons in Hnd. apply NoDup_cons in Hnd as [Hnotin Hnd].
    apply elem_of_cons in Hr as [->|Hr]; apply elem_of_cons in Hr' as [->|Hr'].
    + done.
    + exfalso. apply Hnotin. rewrite Hk. by apply list_elem_of_fmap_2.
    + exfalso. apply Hnotin. rewrite <- Hk. by apply list_elem_of_fmap_2.
    + by apply IH.
Qed.

(** With distinct primary keys, deleting the rows a delete hit is deleting
    the rows of the batch. *)
Lemma filter_not_hit id (rows : list (N * I)) :
  NoDup (fst <$> rows) →
  filter (λ r, fst r ∉ fst <$> filter (λ r : N * I, batch_id r = id) rows) rows
  = filter (λ r : N * I, batch_id r ≠ id) rows.
Proof.
  intros Hnd.
  assert (∀ l : list (N * I), (∀ r, r ∈ l → r ∈ rows) →
               filter (λ r, fst r ∉ fst <$> filter (λ r : N * I, batch_id r = id) rows) l
               = filter (λ r : N * I, batch_id r ≠ id) l) as Hgen.
  { induction l as [|r l IH]; intros Hsub; [done|].
    assert (r ∈ rows) as Hr by apply Hsub, list_elem_of_here.
    assert (∀ r', r' ∈ l → r' ∈ rows) as Hsub'.
    { intros r' Hr'. by apply Hsub, list_elem_of_further. }
    destruct (decide (batch_id r = id)) as [Hb|Hb].
    - rewrite !filter_cons_False; [by apply IH| |].
      + intros Hne. by apply Hne.
      + intros Hnot. apply Hnot, list_elem_of_fmap_2, list_elem_of_filter. done.
    - rewrite !filter_cons_True; [by rewrite IH|done|].
      intros (r' & Hk & [Hb' Hr']%list_elem_of_filter)%list_elem_of_fmap_1.
      apply Hb. by rewrite (key_determines_row rows r r' Hnd Hr Hr' Hk). }
  by apply Hgen.
Qed.

Lemma fmap_snd_filter_batch id (rows : list (N * I)) :
  snd <$> filter (λ r : N * I, batch_id r ≠ id) rows
  = filter (λ it, batch_id it ≠ id) (snd <$> rows).
Proof.
  induction rows as [|r rows IH]; [done|].
  rewrite fmap_cons, !filter_cons. change (batch_id r) with (batch_id (snd r)).
  case_decide; by rewrite ?fmap_cons, IH.
Qed.

Lemma with_status_twice id st st' (d : Store I) :
  with_status id st (with_status id st' d) = with_status id st d.
Proof.
  unfold with_status. cbn. f_equal. apply map_eq. intros k.
  destruct (decide (id = k)) as [<-|Hk].
  - rewrite !lookup_alter_eq. by destruct (batches d !! id).
  - by rewrite !lookup_alter_ne.
Qed.

(** The commit of the regenerated items, seen without the primary keys. *)
Lemma store_of_commit_items id new (sh sh' : Shared I) :
  NoDup (fst <$> items (sh_db sh)) →
  items (sh_db sh') = items (sh_db sh) →
  batches (sh_db sh') = batches (with_status id processing (sh_db sh))
  ∨ batches (sh_db sh') = batches (sh_db sh) →
  store_of (commit_items id (hit_rows id sh) new true sh') = regenerated id new (store_of sh).
Proof.
  intros Hnd Hitems Hbatches.
  unfold store_of, commit_items, regenerated, hit_rows, items_of,
    with_status, with_items, without_items.
  cbn [sh_db batches items]. f_equal.
  - destruct Hbatches as [-> | ->]; [done|].
    apply map_eq. intros k. destruct (decide (id = k)) as [<-|Hk].
    + rewrite !lookup_alter_eq. by destruct (batches (sh_db sh) !! id).
    + by rewrite !lookup_alter_ne.
  - rewrite Hitems, fmap_app, keyed_snd, (filter_not_hit id _ Hnd).
    by rewrite fmap_snd_filter_batch.
Qed.

End WorkerAlone.

(** A validation worker that runs alone, with the row lock free, ends as
    the job of [app/workers/jobs.py] does in one session, and leaves the same
    tables. *)
Lemma validation_worker_alone id (sh : Shared AddressValidationItem) :
  sh_lock sh !! id = None →
  NoDup (fst <$> items (sh_db sh)) →
  let W := run (validation_step id) [worker_1; worker_1; worker_1; worker_1]
             {| shared := sh; at_1 := v_start; at_2 := v_start |} in
  let job := validate_addresses_batch id (store_of sh) in
  at_1 W = v_done (job_outcome job) ∧ store_of (shared W) = job_db job.
Proof.
  intros Hl Hnd W job. subst W job. rewrite validate_addresses_batch_run.
  rewrite head_items_of_store_of. change (batches (store_of sh)) with (batches (sh_db sh)).
  unfold run. cbn [foldl].
  set (step := validation_step id).
  set (W0 := {| shared := sh; at_1 := v_start; at_2 := v_start |}).
  destruct (batches (sh_db sh) !! id) as [b|] eqn:Hb.
  2:{ assert (turn step worker_1 W0
              = {| shared := sh; at_1 := v_done (Returned tt); at_2 := v_start |}) as ->.
      { subst step W0. cbn. by rewrite Hl, Hb. }
      done. }
  assert (turn step worker_1 W0
          = {| shared := acquire id worker_1 sh; at_1 := v_locked b; at_2 := v_start |}) as ->.
  { subst step W0. cbn. by rewrite Hl, Hb. }
  clear W0.
  destruct (bool_decide (status b = completed) && _) eqn:Hguard.
  { assert (turn step worker_1
              {| shared := acquire id worker_1 sh; at_1 := v_locked b; at_2 := v_start |}
            = {| shared := release id (acquire id worker_1 sh);
                 at_1 := v_done (Returned tt); at_2 := v_start |}) as ->.
    { subst step. cbn. by rewrite Hguard. }
    done. }
  destruct (default [] (request_payload b)) as [|a rest] eqn:Hp.
  { assert (turn step worker_1
              {| shared := acquire id worker_1 sh; at_1 := v_locked b; at_2 := v_start |}
            = {| shared := release id (update_db (with_status id failed)
                                         (acquire id worker_1 sh));
                 at_1 := v_done (Returned tt); at_2 := v_start |}) as ->.
    { subst step. cbn. by rewrite Hguard, Hp. }
    done. }
  assert (turn step worker_1
            {| shared := acquire id worker_1 sh; at_1 := v_locked b; at_2 := v_start |}
          = {| shared := acquire id worker_1 sh; at_1 := v_processing b; at_2 := v_start |})
    as ->.
  { subst step. cbn. by rewrite Hguard, Hp. }
  assert (turn step worker_1
            {| shared := acquire id worker_1 sh; at_1 := v_processing b; at_2 := v_start |}
          = {| shared := acquire id worker_1 sh;
               at_1 := v_deleted b (hit_rows id sh); at_2 := v_start |}) as -> by done.
  subst step. cbn [turn at_1 at_2 shared validation_step]. rewrite Hp.
  destruct (validate_all AddressIn_model_validate (a :: rest)) as [addresses|]; [|done].
  split; [done|]. cbn [shared].
  change (store_of (release id ?x)) with (store_of x).
  apply store_of_commit_items; auto.
Qed.

(** A recognition worker that runs alone ends as the job does in one
    session, and leaves the same tables. *)
Lemma recognition_worker_alone id (sh : Shared AddressRecognitionItem) :
  NoDup (fst <$> items (sh_db sh)) →
  let W := run (recognition_step id) [worker_1; worker_1; worker_1; worker_1]
             {| shared := sh; at_1 := r_start; at_2 := r_start |} in
  let job := recognize_addresses_batch id (store_of sh) in
  at_1 W = r_done (job_outcome job) ∧ store_of (shared W) = job_db job.
Proof.
  intros Hnd W job. subst W job. rewrite recognize_addresses_batch_run.
  change (batches (store_of sh)) with (batches (sh_db sh)).
  unfold run. cbn [foldl].
  set (step := recognition_step id).
  set (W0 := {| shared := sh; at_1 := r_start; at_2 := r_start |}).
  destruct (batches (sh_db sh) !! id) as [b|] eqn:Hb.
  2:{ assert (turn step worker_1 W0
              = {| shared := sh; at_1 := r_done (Returned tt); at_2 := r_start |}) as ->.
      { subst step W0. cbn. by rewrite Hb. }
      done. }
  destruct (bool_decide (status b = processing) || _) eqn:Hguard.
  { assert (turn step worker_1 W0
            = {| shared := sh; at_1 := r_done (Returned tt); at_2 := r_start |}) as ->.
    { subst step W0. cbn. by rewrite Hb, Hguard. }
    done. }
  destruct (default [] (request_payload b)) as [|a rest] eqn:Hp.
  { assert (turn step worker_1 W0
            = {| shared := sh; at_1 := r_failing b; at_2 := r_start |}) as ->.
    { subst step W0. cbn. by rewrite Hb, Hguard, Hp. }
    done. }
  assert (turn step worker_1 W0
          = {| shared := sh; at_1 := r_loaded b; at_2 := r_start |}) as ->.
  { subst step W0. cbn. by rewrite Hb, Hguard, Hp. }
  subst step. cbn [turn at_1 at_2 shared recognition_step]. rewrite Hp.
  destruct (validate_all AddressRecognizeIn_model_validate (a :: rest)) as [addresses|];
    [|done].
  split; [done|]. cbn [shared].
  change (hit_rows id (update_db (with_status id processing) sh)) with (hit_rows id sh).
  rewrite bool_decide_eq_true_2.
  2:{ cbn. rewrite lookup_alter_eq, Hb. done. }
  rewrite <- list_fmap_compose.
  apply store_of_commit_items; auto.
Qed.

End Workers.

(** * Further properties of the services *)

(** ** What normalization keeps and what it produces *)

Section NormalizeMore.
Import AddressValidationNormalize AddressRecognitionNormalize.

Lemma normalize_value_agree k v : normalize_value k v = recognize_value k v.
Proof.
  destruct v as [| | |s| |]; try done.
  destruct (decide (k = ARI)) as [->|Hk].
  { by rewrite normalize_value_indicator, recognize_value_indicator. }
  unfold normalize_value, recognize_value. unfold ARI in Hk.
  rewrite (bool_decide_eq_false_2 (k = "address_residential_indicator") Hk).
  by repeat case_bool_decide.
Qed.

(** X1. Both normalizations keep the keys of the record and add the indicator:
    no field is dropped and no other field is invented. *)
Theorem normalization_keys (x : dict) :
  dom (_normalize x) = dom x ∪ {[ARI]}
  ∧ dom (_recognize_one x) = dom x ∪ {[ARI]}.
Proof.
  split; apply set_eq; intros k;
    rewrite elem_of_union, elem_of_singleton, !elem_of_dom.
  - rewrite lookup_normalize. destruct (x !! k) as [v|] eqn:Hv.
    + split; [by left|by eauto].
    + case_bool_decide as Hk.
      * split; [by right|by eauto].
      * split; [by intros [? [=]]|]. intros [[? [=]]|?]. done.
  - rewrite lookup_recognize_one. destruct (x !! k) as [v|] eqn:Hv.
    + split; [by left|]. intros _. case_bool_decide; by eauto.
    + case_bool_decide as Hk.
      * split; [by right|by eauto].
      * split; [by intros [? [=]]|]. intros [[? [=]]|?]. done.
Qed.

(** X2. The two pipelines normalize alike: on every record whose indicator is
    not null, [_normalize] and [_recognize_one] give the same record. *)
Theorem normalizations_agree (x : dict) :
  x !! ARI ≠ Some VNone → _normalize x = _recognize_one x.
Proof.
  intros Hnull. apply map_eq. intros k.
  rewrite lookup_normalize, lookup_recognize_one.
  destruct (x !! k) as [v|] eqn:Hv; [|done].
  rewrite normalize_value_agree. case_bool_decide as Hk; [|done].
  subst k. destruct v; try done.
Qed.

Lemma normalizations_agree_witness :
  let x : dict := {[ "city_locality" := VStr " anytown "; "email" := VStr "A@B.C" ]} in
  x !! ARI ≠ Some VNone ∧ _normalize x = _recognize_one x.
Proof.
  split; [by vm_compute|].
  apply (normalizations_agree {[ "city_locality" := VStr " anytown "; "email" := VStr "A@B.C" ]}).
  by vm_compute.
Defined.




End NormalizeMore.

(** ** Input validation *)

Section ValidateMore.

(** X4. The indicator of a raw record never decides whether the record
    validates as an [AddressIn]: whatever value it has, the record validates
    exactly when it does without it, and the instance carries the canonical
    form of that value. *)
Theorem indicator_never_rejected (d : dict) (v : value) :
  AddressIn_model_validate (VDict (<[ARI := v]> d))
  = (λ a, with_indicator a (normalize_residential_indicator v))
      <$> AddressIn_model_validate (VDict d).
Proof.
  assert (∀ k, k ≠ ARI → opt_str_field (<[ARI := v]> d) k = opt_str_field d k) as Hopt.
  { intros k Hk. unfold opt_str_field. by rewrite lookup_insert_ne. }
  assert (∀ k lo hi, k ≠ ARI →
            req_str_field (<[ARI := v]> d) k lo hi = req_str_field d k lo hi) as Hreq.
  { intros k lo hi Hk. unfold req_str_field. by rewrite lookup_insert_ne. }
  assert (∀ k, k ≠ ARI → postal_field (<[ARI := v]> d) k = postal_field d k) as Hpostal.
  { intros k Hk. unfold postal_field. by rewrite lookup_insert_ne. }
  unfold AddressIn_model_validate, indicator_field.
  rewrite lookup_insert_eq, !Hopt, !Hreq, !Hpostal by done.
  destruct (opt_str_field d "name"); [|done].
  destruct (opt_str_field d "phone"); [|done].
  destruct (opt_str_field d "email"); [|done].
  destruct (opt_str_field d "company_name"); [|done].
  destruct (req_str_field d "address_line1" 1 None); [|done].
  destruct (opt_str_field d "address_line2"); [|done].
  destruct (opt_str_field d "address_line3"); [|done].
  destruct (req_str_field d "city_locality" 1 None); [|done].
  destruct (req_str_field d "state_province" 1 None); [|done].
  destruct (postal_field d "postal_code"); [|done].
  destruct (req_str_field d "country_code" 2 (Some 2)); done.
Qed.

(** X5. Dumping an instance and validating the dump gives the instance back:
    what [model_validate] built once, it builds again from [model_dump]. *)
Theorem validate_dump_round_trip (raw : value) (a : AddressIn) :
  AddressIn_model_validate raw = Some a →
  AddressIn_model_validate (VDict (model_dump a)) = Some a.
Proof. intros Hraw. by apply AddressIn_model_validate_dump, (AddressIn_model_validate_ok raw). Qed.

Lemma validate_dump_round_trip_witness :
  let a := with_indicator sample_address "yes" in
  AddressIn_model_validate raw_sample_address = Some a
  ∧ AddressIn_model_validate (VDict (model_dump a)) = Some a.
Proof.
  assert (AddressIn_model_validate raw_sample_address
          = Some (with_indicator sample_address "yes")) as Hraw by (by vm_compute).
  split; [exact Hraw|].
  exact (validate_dump_round_trip raw_sample_address _ Hraw).
Defined.

End ValidateMore.

(** ** The warning of the validation pipeline *)

Section StatusAndMessages.
Import AddressValidationService.





End StatusAndMessages.

(** ** Process, run again and seen from other batches *)

Section ProcessMore.

Lemma validate_all_cons_nonempty {A} (mv : value → option A) a rest xs :
  validate_all mv (a :: rest) = Some xs → xs ≠ [].
Proof. intros Hv%validate_all_length. by destruct xs. Qed.

(** X7. Running the validation job a second time changes nothing: the database
    after two runs is the database after one, and a second run returns
    normally when the first did. *)
Theorem validation_process_idempotent (id : uuid) (d : Store AddressValidationItem) :
  let once := validate_addresses_batch id d in
  let twice := validate_addresses_batch id (job_db once) in
  job_db twice = job_db once
  ∧ (job_outcome once = Returned tt → job_outcome twice = Returned tt).
Proof.
  cbv zeta. rewrite (validate_addresses_batch_run id d).
  destruct (batches d !! id) as [b|] eqn:Hb.
  2:{ unfold job_db, job_outcome. cbn [fst snd].
      by rewrite validate_addresses_batch_run, Hb. }
  destruct (bool_decide (status b = completed) && _) eqn:Hguard.
  { unfold job_db, job_outcome. cbn [fst snd].
    by rewrite validate_addresses_batch_run, Hb, Hguard. }
  destruct (default [] (request_payload b)) as [|a rest] eqn:Hp.
  { unfold job_db, job_outcome. cbn [fst snd].
    rewrite validate_addresses_batch_run.
    rewrite (lookup_with_status id failed d b Hb). cbn [status request_payload].
    rewrite Hp. cbn. by rewrite with_status_twice. }
  destruct (validate_all AddressIn_model_validate (a :: rest)) as [addresses|] eqn:Hv.
  2:{ unfold job_db, job_outcome. cbn [fst snd].
      rewrite validate_addresses_batch_run, Hb, Hguard, Hp, Hv. done. }
  cbv zeta. unfold job_db, job_outcome. cbn [fst snd].
  rewrite validate_addresses_batch_run.
  rewrite (lookup_regenerated id _ d b Hb). cbn [status].
  rewrite items_of_regenerated by done.
  pose proof (validate_all_cons_nonempty _ _ _ _ Hv) as Hne.
  destruct addresses as [|a0 addresses]; done.
Qed.

(** X8. Running the recognition job a second time changes nothing either. *)
Theorem recognition_process_idempotent (id : uuid) (d : Store AddressRecognitionItem) :
  let once := recognize_addresses_batch id d in
  let twice := recognize_addresses_batch id (job_db once) in
  job_db twice = job_db once
  ∧ job_outcome twice = Returned tt.
Proof.
  cbv zeta. rewrite (recognize_addresses_batch_run id d).
  destruct (batches d !! id) as [b|] eqn:Hb.
  2:{ unfold job_db, job_outcome. cbn [fst snd].
      by rewrite recognize_addresses_batch_run, Hb. }
  destruct (bool_decide (status b = processing) || _) eqn:Hguard.
  { unfold job_db, job_outcome. cbn [fst snd].
    by rewrite recognize_addresses_batch_run, Hb, Hguard. }
  destruct (default [] (request_payload b)) as [|a rest] eqn:Hp.
  { unfold job_db, job_outcome. cbn [fst snd].
    rewrite recognize_addresses_batch_run.
    rewrite (lookup_with_status id failed d b Hb). cbn [status request_payload].
    rewrite Hp. cbn. by rewrite with_status_twice. }
  destruct (validate_all AddressRecognizeIn_model_validate (a :: rest))
    as [addresses|] eqn:Hv; cbv zeta; unfold job_db, job_outcome; cbn [fst snd];
    rewrite recognize_addresses_batch_run.
  - by rewrite (lookup_regenerated id _ d b Hb).
  - by rewrite (lookup_with_status id processing d b Hb).
Qed.

Lemma touches_only_refl {I} `{ItemRow I} id (d : Store I) : touches_only id d d.
Proof. by split. Qed.

Lemma touches_only_with_status {I} `{ItemRow I} id st (d : Store I) :
  touches_only id d (with_status id st d).
Proof.
  split.
  - intros id' Hne. by rewrite lookup_with_status_ne.
  - intros id'. unfold with_status. cbn [batches].
    destruct (decide (id = id')) as [<-|Hne].
    + rewrite lookup_alter_eq. by destruct (batches d !! id).
    + by rewrite lookup_alter_ne.
Qed.

Lemma touches_only_regenerated {I} `{ItemRow I} {A} id (f : A → I) xs (d : Store I) :
  (∀ x, batch_id (f x) = id) →
  touches_only id d (regenerated id (f <$> xs) d).
Proof.
  intros Hf. split.
  - intros id' Hne. unfold regenerated. split.
    + rewrite lookup_with_status_ne by done.
      change (batches (with_items ?new (without_items id ?d0)) !! id')
        with (batches d0 !! id').
      by rewrite lookup_with_status_ne.
    + rewrite items_of_with_status, items_of_with_items.
      rewrite (filter_none_of_batch id' id f xs Hne Hf), app_nil_r.
      by rewrite items_of_without_items_ne, items_of_with_status.
  - intros id'. unfold regenerated, with_status, with_items, without_items.
    cbn [batches]. destruct (decide (id = id')) as [<-|Hne].
    + rewrite !lookup_alter_eq. by destruct (batches d !! id).
    + by rewrite !lookup_alter_ne.
Qed.

(** X9. Process works on its batch only: in every snapshot it commits, in both
    pipelines, every other batch has the row and the items it had, and no
    stored payload has changed. *)
Theorem process_touches_only_its_batch (id : uuid) :
  (∀ (d : Store AddressValidationItem) s,
     s ∈ job_history (validate_addresses_batch id d) ∨ s = job_db (validate_addresses_batch id d) →
     touches_only id d s)
  ∧ (∀ (d : Store AddressRecognitionItem) s,
       s ∈ job_history (recognize_addresses_batch id d)
       ∨ s = job_db (recognize_addresses_batch id d) →
       touches_only id d s).
Proof.
  split; intros d s.
  - rewrite validate_addresses_batch_run.
    destruct (batches d !! id) as [b|] eqn:Hb.
    2:{ intros [->%list_elem_of_singleton | ->]; apply touches_only_refl. }
    destruct (bool_decide (status b = completed) && _).
    { intros [->%list_elem_of_singleton | ->]; apply touches_only_refl. }
    destruct (default [] (request_payload b)) as [|a rest].
    { intros [->%list_elem_of_singleton | ->]; apply touches_only_with_status. }
    destruct (validate_all AddressIn_model_validate (a :: rest)) as [addresses|]; cbv zeta.
    + intros [->%list_elem_of_singleton | ->]; by apply touches_only_regenerated.
    + intros [[]%elem_of_nil | ->]. apply touches_only_refl.
  - rewrite recognize_addresses_batch_run.
    destruct (batches d !! id) as [b|] eqn:Hb.
    2:{ intros [[]%elem_of_nil | ->]; apply touches_only_refl. }
    destruct (bool_decide (status b = processing) || _).
    { intros [[]%elem_of_nil | ->]; apply touches_only_refl. }
    destruct (default [] (request_payload b)) as [|a rest].
    { intros [->%list_elem_of_singleton | ->]; apply touches_only_with_status. }
    destruct (validate_all AddressRecognizeIn_model_validate (a :: rest))
      as [addresses|]; cbv zeta.
    + intros [[->|[->|[]%elem_of_nil]%elem_of_cons]%elem_of_cons | ->].
      * apply touches_only_with_status.
      * by apply touches_only_regenerated.
      * by apply touches_only_regenerated.
    + intros [->%list_elem_of_singleton | ->]; apply touches_only_with_status.
Qed.

End ProcessMore.

(** ** Creating, processing and reading a validation batch *)

Section ValidationLifecycle.
Import AddressValidationService AddressValidationReads AddressesAPI.

Lemma create_queued_batch_run new_id P (d : Store AddressValidationItem) :
  batches d !! new_id = None →
  in_new_session (create_queued_batch new_id P) d
  = let d' := with_batch new_id {| status := queued; request_payload := Some (dumps P) |} d in
    (Returned new_id, d', [d']).
Proof. intros Hfresh. unfold create_queued_batch. run_op. by rewrite Hfresh. Qed.

Lemma validate_all_dumps P :
  Forall (λ a, AddressIn_ok a = true) P →
  validate_all AddressIn_model_validate (dumps P) = Some P.
Proof.
  induction 1 as [|a P Ha _ IH]; [done|].
  unfold dumps. rewrite fmap_cons. cbn [validate_all].
  rewrite (AddressIn_model_validate_dump a Ha). cbn.
  fold (dumps P). by rewrite IH.
Qed.

Lemma payload_field_dumps P : payload_field (Some (dumps P)) = Some (Some (model_dump <$> P)).
Proof.
  unfold payload_field. cbn.
  assert (mapM (λ v, match v with VDict d => Some d | _ => None end) (dumps P)
          = Some (model_dump <$> P)) as ->; [|done].
  induction P as [|a P IH]; [done|]. unfold dumps in *. rewrite !fmap_cons. cbn.
  by rewrite IH.
Qed.

Lemma messages_round_trip a :
  mapM ValidationMessage_model_validate
    (VDict <$> (ValidationMessage_model_dump <$> snd (_status_and_messages a)))
  = Some (snd (_status_and_messages a)).
Proof.
  unfold _status_and_messages. cbn [snd].
  by destruct (bool_decide (PyStr.upper (country_code a) = "US")
               && postal_falsy (postal_code a)).
Qed.

(** The result read back from the item of an address is the result the
    synchronous path builds for that address. *)
Lemma result_of_row_item_for id a :
  AddressIn_ok a = true → result_of_row (item_for id a) = result_for a.
Proof.
  intros Hok. unfold result_of_row, result_for, item_for.
  cbn [vi_messages vi_status vi_original_address vi_matched_address _status_and_messages].
  change (mapM ValidationMessage_model_validate _)
    with (mapM ValidationMessage_model_validate
            (VDict <$> (ValidationMessage_model_dump <$> snd (_status_and_messages a)))).
  rewrite messages_round_trip. cbn [mbind option_bind].
  rewrite (original_out_ok a Hok), (AddressIn_model_validate_dump a Hok). done.
Qed.

Lemma results_of_rows_item_for id P :
  Forall (λ a, AddressIn_ok a = true) P →
  mapM result_of_row (item_for id <$> P) = mapM result_for P.
Proof.
  induction 1 as [|a P Ha _ IH]; [done|].
  rewrite fmap_cons. cbn [mapM]. by rewrite (result_of_row_item_for id a Ha), IH.
Qed.

Lemma get_validation_batch_run id (d : Store AddressValidationItem) b payload :
  batches d !! id = Some b → payload_field (request_payload b) = Some payload →
  get_validation_batch id d
  = Returned {| vb_id := id; vb_status := status b;
                vb_items_count := length (items_of id d);
                vb_request_payload := payload |}.
Proof.
  intros Hb Hp. unfold get_validation_batch, AddressValidationReads.get_batch,
    in_new_session, open_session, job_outcome.
  cbn [fst snd pending]. by rewrite Hb, Hp.
Qed.

Lemma get_validation_results_run by_created_at id (d : Store AddressValidationItem) :
  get_validation_results by_created_at id d
  = match mapM result_of_row (by_created_at (items_of id d)) with
    | Some [] => Raised (HTTPException 404 "batch_id not found or empty")
    | Some results => Returned results
    | None => Raised ValidationError
    end.
Proof.
  unfold get_validation_results, get_batch_results, in_new_session, open_session,
    job_outcome. cbn [fst snd pending].
  by destruct (mapM result_of_row (by_created_at (items_of id d))) as [[|]|].
Qed.

(** A query without rows returns no rows, in any order. *)
Lemma rearranges_nil {I} (by_created_at : list I → list I) :
  rearranges by_created_at → by_created_at [] = [].
Proof. intros Hrows. apply Permutation_nil_r. exact (Hrows []). Qed.

(** The rows built from a list of records come back as the rows of a
    rearrangement of the records. *)
Lemma rearranges_fmap {A I} (by_created_at : list I → list I) (row : A → I) (l : list A) :
  rearranges by_created_at →
  ∃ l', l' ≡ₚ l ∧ by_created_at (row <$> l) = row <$> l'.
Proof.
  intros Hrows.
  destruct (Permutation_map_inv row l (Hrows (row <$> l))) as (l' & Heq & Hperm).
  exists l'. split; [by symmetry|exact Heq].
Qed.

Lemma mapM_rearranged {A B} (f : A → option B) (l l' : list A) (rs : list B) :
  l ≡ₚ l' → mapM f l = Some rs → ∃ rs', rs' ≡ₚ rs ∧ mapM f l' = Some rs'.
Proof.
  intros Hperm. revert rs.
  induction Hperm as [|a l l' _ IH|a a' l|l l' l'' _ IH1 _ IH2]; intros rs.
  - intros [= <-]. by exists [].
  - cbn. destruct (f a) as [r|]; [|done]. cbn.
    destruct (mapM f l) as [rs0|]; [|done]. cbn. intros [= <-].
    destruct (IH rs0 eq_refl) as (rs' & Hrs' & ->). exists (r :: rs'). split; [|done].
    by constructor.
  - cbn. destruct (f a) as [r|], (f a') as [r'|]; cbn; try done;
      destruct (mapM f l) as [rs0|]; cbn; try done.
    intros [= <-]. exists (r :: r' :: rs0). split; [apply perm_swap|done].
  - intros Hrs. destruct (IH1 rs Hrs) as (rs1 & Hrs1 & Hm1).
    destruct (IH2 rs1 Hm1) as (rs2 & Hrs2 & Hm2).
    exists rs2. split; [by rewrite Hrs2|done].
Qed.

(** The run of the validation job that regenerates the items. *)
Lemma validation_job_regenerates id (d : Store AddressValidationItem) b addresses :
  batches d !! id = Some b →
  status b ≠ completed ∨ items_of id d = [] →
  validate_all AddressIn_model_validate (default [] (request_payload b)) = Some addresses →
  addresses ≠ [] →
  validate_addresses_batch id d
  = let d' := regenerated id (item_for id <$> addresses) d in (Returned tt, d', [d']).
Proof.
  intros Hb Hguard Hv Hne. rewrite validate_addresses_batch_run, Hb.
  assert (bool_decide (status b = completed) && bool_decide (head (items_of id d) ≠ None)
          = false) as ->.
  { destruct Hguard as [Hs | ->]; [by rewrite bool_decide_eq_false_2|].
    cbn. by rewrite andb_false_r. }
  destruct (default [] (request_payload b)) as [|a rest].
  { cbn in Hv. by injection Hv as <-. }
  by rewrite Hv.
Qed.

(** X12. Asynchronous create: the endpoint answers 202 with an empty body and
    the new id, stores one [queued] batch with the dumped payload and no
    item, and enqueues exactly one job. Until a worker has processed the
    batch, its summary shows [queued] with no items and its results are
    answered with NotFound. *)
Theorem async_create_then_read (new_id : uuid) (P : list AddressIn) (app : App)
    (by_created_at : list AddressValidationItem → list AddressValidationItem) :
  rearranges by_created_at →
  batches (db app) !! new_id = None →
  items_of new_id (db app) = [] →
  let app' :=
    {| db := with_batch new_id
               {| status := queued; request_payload := Some (dumps P) |} (db app);
       redis := redis app ++ [("validate_addresses_batch", new_id)] |} in
  validate_addresses new_id P true app
  = (Returned {| status_code := 202; header_batch_id := Some new_id; body := [] |}, app')
  ∧ items (db app') = items (db app)
  ∧ get_validation_batch new_id (db app')
    = Returned {| vb_id := new_id; vb_status := queued; vb_items_count := 0;
                  vb_request_payload := Some (model_dump <$> P) |}
  ∧ get_validation_results by_created_at new_id (db app')
    = Raised (HTTPException 404 "batch_id not found or empty").
Proof.
  intros Hrows Hfresh Horphan app'. subst app'. split.
  { unfold validate_addresses. by rewrite (create_queued_batch_run new_id P _ Hfresh). }
  split; [done|]. cbn [db]. split.
  - rewrite (get_validation_batch_run new_id _
               {| status := queued; request_payload := Some (dumps P) |}
               (Some (model_dump <$> P))).
    + change (items_of new_id (with_batch new_id ?b ?d)) with (items_of new_id d).
      by rewrite Horphan.
    + unfold with_batch. cbn [batches]. by rewrite lookup_insert_eq.
    + apply payload_field_dumps.
  - rewrite get_validation_results_run.
    change (items_of new_id (with_batch new_id ?b ?d)) with (items_of new_id d).
    by rewrite Horphan, (rearranges_nil by_created_at Hrows).
Qed.

Lemma async_create_then_read_witness :
  let app := {| db := empty_db; redis := [] |} in
  let app' :=
    {| db := with_batch 1 {| status := queued;
                             request_payload := Some (dumps [sample_address]) |} (db app);
       redis := redis app ++ [("validate_addresses_batch", 1%N)] |} in
  validate_addresses 1 [sample_address] true app
  = (Returned {| status_code := 202; header_batch_id := Some 1%N; body := [] |}, app')
  ∧ items (db app') = items (db app)
  ∧ get_validation_batch 1 (db app')
    = Returned {| vb_id := 1%N; vb_status := queued; vb_items_count := 0;
                  vb_request_payload := Some (model_dump <$> [sample_address]) |}
  ∧ get_validation_results (λ rows, rows) 1 (db app')
    = Raised (HTTPException 404 "batch_id not found or empty").
Proof.
  apply (async_create_then_read 1 [sample_address] {| db := empty_db; redis := [] |}
           (λ rows, rows));
    [intros rows; reflexivity | reflexivity | reflexivity].
Defined.

(** X13. The asynchronous path end to end. After [create_queued_batch] and one
    run of the worker job, the batch is [completed] and has one item per
    address, the item the synchronous path would store; its summary counts
    them, and its results are the results the synchronous path builds for the
    addresses, in the order the query returns the rows, or the
    [ValidationError] of the response schema when a normalized address does
    not pass it. *)
Theorem async_create_then_process (new_id : uuid) (P : list AddressIn)
    (d : Store AddressValidationItem)
    (by_created_at : list AddressValidationItem → list AddressValidationItem) :
  rearranges by_created_at →
  batches d !! new_id = None →
  items_of new_id d = [] →
  Forall (λ a, AddressIn_ok a = true) P →
  P ≠ [] →
  let run :=
    validate_addresses_batch new_id (job_db (in_new_session (create_queued_batch new_id P) d)) in
  job_outcome run = Returned tt
  ∧ batches (job_db run) !! new_id
    = Some {| status := completed; request_payload := Some (dumps P) |}
  ∧ items_of new_id (job_db run) = item_for new_id <$> P
  ∧ get_validation_batch new_id (job_db run)
    = Returned {| vb_id := new_id; vb_status := completed; vb_items_count := length P;
                  vb_request_payload := Some (model_dump <$> P) |}
  ∧ ∃ P', P' ≡ₚ P
      ∧ get_validation_results by_created_at new_id (job_db run)
        = match mapM result_for P' with
          | Some results => Returned results
          | None => Raised ValidationError
          end.
Proof.
  intros Hrows Hfresh Horphan Hok Hne run. subst run.
  rewrite (create_queued_batch_run new_id P d Hfresh). cbv zeta.
  unfold job_db, job_outcome. cbn [fst snd].
  set (d1 := with_batch new_id {| status := queued; request_payload := Some (dumps P) |} d).
  assert (batches d1 !! new_id
          = Some {| status := queued; request_payload := Some (dumps P) |}) as Hb.
  { unfold d1, with_batch. cbn [batches]. by rewrite lookup_insert_eq. }
  assert (validate_addresses_batch new_id d1
          = (Returned tt, regenerated new_id (item_for new_id <$> P) d1,
             [regenerated new_id (item_for new_id <$> P) d1])) as ->.
  { apply (validation_job_regenerates new_id d1 _ P Hb); [by left| |done].
    cbn [request_payload default]. by apply validate_all_dumps. }
  cbn [fst snd].
  assert (batches (regenerated new_id (item_for new_id <$> P) d1) !! new_id
          = Some {| status := completed; request_payload := Some (dumps P) |}) as Hb'.
  { by rewrite (lookup_regenerated new_id _ d1 _ Hb). }
  assert (items_of new_id (regenerated new_id (item_for new_id <$> P) d1)
          = item_for new_id <$> P) as Hitems by (by apply items_of_regenerated).
  split; [done|]. split; [exact Hb'|]. split; [exact Hitems|]. split.
  - rewrite (get_validation_batch_run new_id _ _ (Some (model_dump <$> P)) Hb').
    + by rewrite Hitems, length_fmap.
    + apply payload_field_dumps.
  - destruct (rearranges_fmap by_created_at (item_for new_id) P Hrows) as (P' & HP' & Hq).
    exists P'. split; [exact HP'|].
    assert (Forall (λ a, AddressIn_ok a = true) P') as Hok' by (by rewrite HP').
    rewrite get_validation_results_run, Hitems, Hq, (results_of_rows_item_for new_id P' Hok').
    destruct (mapM result_for P') as [[|r rs]|] eqn:Hrs; try done.
    apply length_mapM in Hrs. apply Permutation_length in HP'. by destruct P, P'.
Qed.

Lemma async_create_then_process_witness :
  let run :=
    validate_addresses_batch 1
      (job_db (in_new_session (create_queued_batch 1 [blank_line_address])
                 (empty_db : Store AddressValidationItem))) in
  job_outcome run = Returned tt
  ∧ batches (job_db run) !! 1%N
    = Some {| status := completed; request_payload := Some (dumps [blank_line_address]) |}
  ∧ items_of 1 (job_db run) = item_for 1 <$> [blank_line_address]
  ∧ get_validation_batch 1 (job_db run)
    = Returned {| vb_id := 1%N; vb_status := completed; vb_items_count := 1;
                  vb_request_payload := Some (model_dump <$> [blank_line_address]) |}
  ∧ ∃ P', P' ≡ₚ [blank_line_address]
      ∧ get_validation_results (λ rows, rows) 1 (job_db run)
        = match mapM result_for P' with
          | Some results => Returned results
          | None => Raised ValidationError
          end.
Proof.
  apply (async_create_then_process 1 [blank_line_address] empty_db (λ rows, rows));
    [intros rows; reflexivity | reflexivity | reflexivity | by repeat constructor
    | discriminate].
Defined.

(** X14. Reading after a synchronous create: when [validate_and_store] has
    returned its results, the results endpoint returns the same results, in
    the order the query returns the rows (NotFound for an empty request), and
    the summary shows a [completed] batch with one item per address. *)
Theorem fetch_after_sync_create (new_id : uuid) (P : list AddressIn)
    (d : Store AddressValidationItem) (results : list AddressValidationResultOut)
    (by_created_at : list AddressValidationItem → list AddressValidationItem) :
  rearranges by_created_at →
  batches d !! new_id = None →
  items_of new_id d = [] →
  Forall (λ a, AddressIn_ok a = true) P →
  job_outcome (in_new_session (validate_and_store new_id P) d) = Returned (new_id, results) →
  let after := job_db (in_new_session (validate_and_store new_id P) d) in
  (∃ results', results' ≡ₚ results
     ∧ get_validation_results by_created_at new_id after
       = match results' with
         | [] => Raised (HTTPException 404 "batch_id not found or empty")
         | _ => Returned results'
         end)
  ∧ get_validation_batch new_id after
    = Returned {| vb_id := new_id; vb_status := completed; vb_items_count := length P;
                  vb_request_payload := Some (model_dump <$> P) |}.
Proof.
  intros Hrows Hfresh Horphan Hok. rewrite (validate_and_store_run new_id P d Hfresh).
  destruct (mapM result_for P) as [rs|] eqn:Hrs; [|done].
  cbv zeta. unfold job_outcome, job_db. cbn [fst snd]. intros [= <-].
  set (b := {| status := completed;
               request_payload := Some ((λ a, VDict (model_dump a)) <$> P) |}).
  assert (items_of new_id (with_items (item_for new_id <$> P) (with_batch new_id b d))
          = item_for new_id <$> P) as Hitems.
  { rewrite items_of_with_items.
    change (items_of new_id (with_batch new_id b d)) with (items_of new_id d).
    rewrite Horphan. cbn [app]. by apply filter_all_of_batch. }
  split.
  - destruct (rearranges_fmap by_created_at (item_for new_id) P Hrows) as (P' & HP' & Hq).
    assert (Forall (λ a, AddressIn_ok a = true) P') as Hok' by (by rewrite HP').
    symmetry in HP'.
    destruct (mapM_rearranged result_for P P' rs HP' Hrs) as (rs' & Hrs' & Hm).
    exists rs'. split; [exact Hrs'|].
    rewrite get_validation_results_run, Hitems, Hq, (results_of_rows_item_for new_id P' Hok'), Hm.
    by destruct rs'.
  - rewrite (get_validation_batch_run new_id _ b (Some (model_dump <$> P))).
    + by rewrite Hitems, length_fmap.
    + unfold with_items, with_batch. cbn [batches]. by rewrite lookup_insert_eq.
    + apply payload_field_dumps.
Qed.

Lemma fetch_after_sync_create_witness :
  let after := job_db (in_new_session (validate_and_store 1 [sample_address])
                         (empty_db : Store AddressValidationItem)) in
  job_outcome (in_new_session (validate_and_store 1 [sample_address])
                 (empty_db : Store AddressValidationItem))
  = Returned (1%N, sample_results)
  ∧ (∃ results', results' ≡ₚ sample_results
       ∧ get_validation_results (λ rows, rows) 1 after
         = match results' with
           | [] => Raised (HTTPException 404 "batch_id not found or empty")
           | _ => Returned results'
           end)
  ∧ get_validation_batch 1 after
    = Returned {| vb_id := 1%N; vb_status := completed; vb_items_count := 1;
                  vb_request_payload := Some (model_dump <$> [sample_address]) |}.
Proof.
  assert (job_outcome (in_new_session (validate_and_store 1 [sample_address])
                         (empty_db : Store AddressValidationItem))
          = Returned (1%N, sample_results)) as Hrun by (vm_compute; reflexivity).
  split; [exact Hrun|].
  apply (fetch_after_sync_create 1 [sample_address] empty_db sample_results (λ rows, rows));
    [intros rows; reflexivity | reflexivity | reflexivity | by repeat constructor
    | exact Hrun].
Defined.

(** X15. The listing of batches. When every stored payload is a list of
    dictionaries the listing returns a page of at most [limit] summaries, no
    batch twice; each summary is the one the summary endpoint returns for its
    id, and has the status asked for; a first page that is large enough
    holds every batch with that status. *)
Theorem listing_agrees_with_summary
    (by_created_at_desc : list (uuid * Batch) → list (uuid * Batch))
    (limit offset : nat) (status_filter : option BatchStatus)
    (d : Store AddressValidationItem) :
  rearranges by_created_at_desc →
  (∀ id b, batches d !! id = Some b → payload_field (request_payload b) ≠ None) →
  ∃ page,
    list_validation_batches by_created_at_desc limit offset status_filter d = Returned page
    ∧ (length page <= limit)%nat
    ∧ NoDup (vb_id <$> page)
    ∧ (∀ summary, summary ∈ page →
         get_validation_batch (vb_id summary) d = Returned summary
         ∧ status_matches status_filter (vb_status summary) = true)
    ∧ (offset = 0 → (size (batches d) <= limit)%nat →
       ∀ id b, batches d !! id = Some b → status_matches status_filter (status b) = true →
               ∃ summary, summary ∈ page ∧ vb_id summary = id).
Proof.
  intros Hrows Hpayloads.
  unfold list_validation_batches, list_batches, in_new_session, open_session, job_outcome.
  cbn [fst snd pending].
  set (selected := filter (λ row : uuid * Batch, status_matches status_filter (status row.2))
                          (map_to_list (batches d))).
  set (rows := take limit (drop offset (by_created_at_desc selected))).
  assert (∀ row, row ∈ by_created_at_desc selected ↔
                 batches d !! row.1 = Some row.2
                 ∧ status_matches status_filter (status row.2) = true) as Hsel.
  { intros [id b]. rewrite (Hrows selected). unfold selected.
    rewrite list_elem_of_filter, elem_of_map_to_list. cbn.
    rewrite Is_true_true. tauto. }
  assert (∀ row, row ∈ rows → row ∈ by_created_at_desc selected) as Hin.
  { intros row Hrow. unfold rows in Hrow.
    apply elem_of_take in Hrow as (i & Hrow & _). rewrite lookup_drop in Hrow.
    by eapply list_elem_of_lookup_2. }
  assert (NoDup (rows.*1)) as Hnodup.
  { apply (sublist_NoDup _ ((by_created_at_desc selected).*1)).
    - rewrite (Hrows selected). unfold selected.
      apply (sublist_NoDup _ ((map_to_list (batches d)).*1)).
      + apply NoDup_fst_map_to_list.
      + apply fmap_sublist, sublist_filter.
    - apply fmap_sublist. unfold rows.
      etrans; [apply sublist_take|apply sublist_drop]. }
  destruct (mapM (summary_of_row d) rows) as [page|] eqn:Hpage.
  2:{ exfalso. apply eq_None_not_Some in Hpage. apply Hpage, mapM_is_Some.
      apply Forall_forall. intros [id b] Hrow.
      apply Hin, Hsel in Hrow as [Hb _]. cbn in Hb.
      unfold summary_of_row. cbn.
      destruct (payload_field (request_payload b)) eqn:Hp; [by eexists|].
      by destruct (Hpayloads id b Hb). }
  apply mapM_Some in Hpage.
  assert (vb_id <$> page = rows.*1) as Hids.
  { clear -Hpage. induction Hpage as [|[id b] summary rows page Hs _ IH]; [done|].
    rewrite !fmap_cons, IH. f_equal. unfold summary_of_row in Hs. cbn in Hs.
    destruct (payload_field (request_payload b)); [|done]. by injection Hs as <-. }
  exists page. split; [done|]. split.
  { rewrite <- (Forall2_length _ _ _ Hpage). unfold rows. rewrite length_take. lia. }
  split; [by rewrite Hids|]. split.
  - intros summary Hs. apply list_elem_of_lookup_1 in Hs as [i Hi].
    destruct (Forall2_lookup_r _ _ _ _ _ Hpage Hi) as ([id b] & Hrow & Hsum).
    apply list_elem_of_lookup_2, Hin, Hsel in Hrow as [Hb Hst]. cbn in Hb, Hst.
    unfold summary_of_row in Hsum. cbn in Hsum.
    destruct (payload_field (request_payload b)) as [payload|] eqn:Hp; [|done].
    injection Hsum as <-. cbn [vb_id vb_status]. split; [|exact Hst].
    by rewrite (get_validation_batch_run id d b payload Hb Hp).
  - intros -> Hsize id b Hb Hst.
    assert ((id, b) ∈ rows) as Hrow.
    { unfold rows. rewrite drop_0, take_ge.
      - by apply Hsel.
      - rewrite (Permutation_length (Hrows selected)). unfold selected.
        etrans; [apply length_filter|]. by rewrite length_map_to_list. }
    apply list_elem_of_lookup_1 in Hrow as [i Hi].
    destruct (Forall2_lookup_l _ _ _ _ _ Hpage Hi) as (summary & Hs & Hsum).
    exists summary. split; [by eapply list_elem_of_lookup_2|].
    unfold summary_of_row in Hsum. cbn in Hsum.
    destruct (payload_field (request_payload b)); [|done]. by injection Hsum as <-.
Qed.

Lemma listing_agrees_with_summary_witness :
  let d : Store AddressValidationItem :=
    one_batch_db 1 queued (Some (dumps [sample_address])) in
  ∃ page,
    list_validation_batches (λ rows, rows) 50 0 (Some queued) d = Returned page
    ∧ (length page <= 50)%nat
    ∧ NoDup (vb_id <$> page)
    ∧ (∀ summary, summary ∈ page →
         get_validation_batch (vb_id summary) d = Returned summary
         ∧ status_matches (Some queued) (vb_status summary) = true)
    ∧ (0 = 0 → (size (batches d) <= 50)%nat →
       ∀ id b, batches d !! id = Some b → status_matches (Some queued) (status b) = true →
               ∃ summary, summary ∈ page ∧ vb_id summary = id).
Proof.
  apply (listing_agrees_with_summary (λ rows, rows) 50 0 (Some queued)
           (one_batch_db 1 queued (Some (dumps [sample_address])))).
  - intros rows. reflexivity.
  - intros id b Hb. unfold one_batch_db in Hb. cbn [batches] in Hb.
    apply lookup_singleton_Some in Hb as [_ <-]. discriminate.
Defined.

End ValidationLifecycle.

(** ** Requeue, delete and empty payloads *)

Section RequeueDelete.
Import AddressValidationService AddressValidationReads AddressesAPI.

Lemma requeue_batch_success id (d : Store AddressValidationItem) b :
  batches d !! id = Some b → status b ≠ processing →
  default [] (request_payload b) ≠ [] →
  in_new_session (requeue_batch id) d
  = let d' := without_items id (with_status id queued d) in (Returned true, d', [d']).
Proof.
  intros Hb Hs Hp. unfold requeue_batch. run_op. rewrite Hb.
  rewrite bool_decide_eq_false_2 by done.
  destruct (request_payload b) as [[|a rest]|]; done.
Qed.

(** What a successful requeue does to the database and to the queue. *)
Lemma requeue_validation_batch_success (id : uuid) (app : App) (b : Batch) :
  batches (db app) !! id = Some b →
  status b ≠ processing →
  default [] (request_payload b) ≠ [] →
  let after := without_items id (with_status id queued (db app)) in
  requeue_validation_batch id app
  = (Returned tt,
     {| db := after; redis := redis app ++ [("validate_addresses_batch", id)] |})
  ∧ batches after !! id = Some {| status := queued; request_payload := request_payload b |}
  ∧ items_of id after = []
  ∧ touches_only id (db app) after.
Proof.
  intros Hb Hs Hp after. subst after. split.
  { unfold requeue_validation_batch.
    by rewrite (requeue_batch_success id (db app) b Hb Hs Hp). }
  split; [by apply lookup_with_status|]. split; [apply items_of_without_items|].
  split.
  - intros id' Hne. split.
    + change (batches (without_items id ?d0) !! id') with (batches d0 !! id').
      by rewrite lookup_with_status_ne.
    + by rewrite items_of_without_items_ne, items_of_with_status.
  - intros id'. change (batches (without_items id ?d0)) with (batches d0).
    apply touches_only_with_status.
Qed.

(** X16. Requeue of a batch that is not [processing] and has a stored payload:
    the endpoint returns normally and enqueues exactly one job; the batch is
    [queued] with its payload and without items, and nothing else in the
    database has changed. *)
Theorem requeue_resets_batch (id : uuid) (app : App) (b : Batch) :
  batches (db app) !! id = Some b →
  status b ≠ processing →
  default [] (request_payload b) ≠ [] →
  let after := without_items id (with_status id queued (db app)) in
  requeue_validation_batch id app
  = (Returned tt,
     {| db := after; redis := redis app ++ [("validate_addresses_batch", id)] |})
  ∧ batches after !! id = Some {| status := queued; request_payload := request_payload b |}
  ∧ items_of id after = []
  ∧ touches_only id (db app) after.
Proof. exact (requeue_validation_batch_success id app b). Qed.

Lemma requeue_resets_batch_witness :
  let app := {| db := job_db (in_new_session (validate_and_store 1 [sample_address])
                                (empty_db : Store AddressValidationItem));
                redis := [] |} in
  let after := without_items 1 (with_status 1 queued (db app)) in
  requeue_validation_batch 1 app
  = (Returned tt,
     {| db := after; redis := redis app ++ [("validate_addresses_batch", 1%N)] |})
  ∧ batches after !! 1%N
    = Some {| status := queued; request_payload := Some (dumps [sample_address]) |}
  ∧ items_of 1 after = []
  ∧ touches_only 1 (db app) after.
Proof.
  apply (requeue_resets_batch 1
           {| db := job_db (in_new_session (validate_and_store 1 [sample_address])
                              (empty_db : Store AddressValidationItem));
              redis := [] |}
           {| status := completed; request_payload := Some (dumps [sample_address]) |});
    [by vm_compute | discriminate | discriminate].
Defined.

(** X17. Requeue and then Process bring a batch back to where Process first left
    it: for a stored payload that validates, the batch is [completed] again
    and its items are again one per record, with the same content. *)
Theorem requeue_then_process_regenerates (id : uuid) (app : App) (b : Batch)
    (addresses : list AddressIn) :
  batches (db app) !! id = Some b →
  status b ≠ processing →
  validate_all AddressIn_model_validate (default [] (request_payload b)) = Some addresses →
  addresses ≠ [] →
  let requeued := snd (requeue_validation_batch id app) in
  let run := validate_addresses_batch id (db requeued) in
  redis requeued = redis app ++ [("validate_addresses_batch", id)]
  ∧ job_outcome run = Returned tt
  ∧ batches (job_db run) !! id
    = Some {| status := completed; request_payload := request_payload b |}
  ∧ items_of id (job_db run) = item_for id <$> addresses
  ∧ touches_only id (db app) (job_db run).
Proof.
  intros Hb Hs Hv Hne requeued run. subst requeued run.
  assert (default [] (request_payload b) ≠ []) as Hp.
  { intros Hp. rewrite Hp in Hv. cbn in Hv. by injection Hv as <-. }
  destruct (requeue_validation_batch_success id app b Hb Hs Hp) as (-> & Hb1 & Hitems1 & Hframe1).
  cbn [snd db redis]. split; [done|].
  set (d1 := without_items id (with_status id queued (db app))) in *.
  rewrite (validation_job_regenerates id d1 _ addresses Hb1); [|by right|done|done].
  cbv zeta. unfold job_outcome, job_db. cbn [fst snd].
  split; [done|]. split; [by rewrite (lookup_regenerated id _ d1 _ Hb1)|].
  split; [by apply items_of_regenerated|].
  pose proof (touches_only_regenerated id (item_for id) addresses d1) as Hframe2.
  destruct Hframe1 as [Hf1 Hp1], Hframe2 as [Hf2 Hp2]; [done|].
  split.
  - intros id' Hid'. destruct (Hf1 id' Hid') as [E1 E2], (Hf2 id' Hid') as [E3 E4].
    split; congruence.
  - intros id'. by rewrite Hp2, Hp1.
Qed.

Lemma requeue_then_process_regenerates_witness :
  let app := {| db := job_db (in_new_session (validate_and_store 1 [sample_address])
                                (empty_db : Store AddressValidationItem));
                redis := [] |} in
  let requeued := snd (requeue_validation_batch 1 app) in
  let run := validate_addresses_batch 1 (db requeued) in
  items_of 1 (db app) = item_for 1 <$> [sample_address]
  ∧ redis requeued = redis app ++ [("validate_addresses_batch", 1%N)]
  ∧ job_outcome run = Returned tt
  ∧ batches (job_db run) !! 1%N
    = Some {| status := completed; request_payload := Some (dumps [sample_address]) |}
  ∧ items_of 1 (job_db run) = item_for 1 <$> [sample_address]
  ∧ touches_only 1 (db app) (job_db run).
Proof.
  split; [by vm_compute|].
  apply (requeue_then_process_regenerates 1
           {| db := job_db (in_new_session (validate_and_store 1 [sample_address])
                              (empty_db : Store AddressValidationItem));
              redis := [] |}
           {| status := completed; request_payload := Some (dumps [sample_address]) |}
           [sample_address]);
    [by vm_compute | discriminate | by vm_compute | discriminate].
Defined.

Lemma delete_batch_run id (d : Store AddressValidationItem) :
  in_new_session (delete_batch id) d
  = match batches d !! id with
    | None => (Returned false, d, [d])
    | Some _ =>
        let d' := {| batches := delete id (batches d);
                     items := items (without_items id d) |} in
        (Returned true, d', [d'])
    end.
Proof. unfold delete_batch. run_op. by destruct (batches d !! id). Qed.

(** X18. Delete removes the batch and all its items and nothing else; afterwards
    the id is unknown to every operation: summary, results and requeue answer
    NotFound, a second delete too, and the worker job finds nothing to do. An
    unknown id is answered with NotFound and the database is left alone. *)
Theorem delete_removes_batch_and_items (id : uuid) (d : Store AddressValidationItem) :
  let after := snd (delete_validation_batch id d) in
  (batches d !! id = None →
     delete_validation_batch id d = (Raised (HTTPException 404 "batch_id not found"), d))
  ∧ (batches d !! id ≠ None → fst (delete_validation_batch id d) = Returned tt)
  ∧ batches after !! id = None
  ∧ (batches d !! id ≠ None → items_of id after = [])
  ∧ (∀ id', id' ≠ id →
       batches after !! id' = batches d !! id' ∧ items_of id' after = items_of id' d)
  ∧ get_validation_batch id after = Raised (HTTPException 404 "batch_id not found")
  ∧ (∀ by_created_at, rearranges by_created_at → batches d !! id ≠ None →
       get_validation_results by_created_at id after
       = Raised (HTTPException 404 "batch_id not found or empty"))
  ∧ (∀ queue, fst (requeue_validation_batch id {| db := after; redis := queue |})
              = Raised (HTTPException 404 "batch_id not found"))
  ∧ delete_validation_batch id after
    = (Raised (HTTPException 404 "batch_id not found"), after)
  ∧ validate_addresses_batch id after = (Returned tt, after, [after]).
Proof.
  cbv zeta. unfold delete_validation_batch. rewrite (delete_batch_run id d).
  destruct (batches d !! id) as [b|] eqn:Hb; cbv zeta; cbn [fst snd negb].
  - set (after := {| batches := delete id (batches d); items := items (without_items id d) |}).
    assert (batches after !! id = None) as Hgone by apply lookup_delete_eq.
    assert (items_of id after = []) as Hitems by apply (items_of_without_items id d).
    split; [done|]. split; [done|]. split; [exact Hgone|]. split; [done|].
    split.
    { intros id' Hne. split.
      - unfold after. cbn [batches]. by rewrite lookup_delete_ne.
      - apply (items_of_without_items_ne id' id d Hne). }
    split.
    { unfold get_validation_batch, AddressValidationReads.get_batch, in_new_session,
        open_session, job_outcome. cbn [fst snd pending]. by rewrite Hgone. }
    split.
    { intros by_created_at Hrows _.
      by rewrite get_validation_results_run, Hitems, (rearranges_nil by_created_at Hrows). }
    split.
    { intros queue. unfold requeue_validation_batch. cbn [db].
      by rewrite (requeue_batch_missing id after Hgone). }
    split.
    { by rewrite (delete_batch_run id after), Hgone. }
    by rewrite validate_addresses_batch_run, Hgone.
  - split; [done|]. split; [done|]. split; [exact Hb|]. split; [done|].
    split; [done|]. split.
    { unfold get_validation_batch, AddressValidationReads.get_batch, in_new_session,
        open_session, job_outcome. cbn [fst snd pending]. by rewrite Hb. }
    split; [done|]. split.
    { intros queue. unfold requeue_validation_batch. cbn [db].
      by rewrite (requeue_batch_missing id d Hb). }
    split.
    { by rewrite (delete_batch_run id d), Hb. }
    by rewrite validate_addresses_batch_run, Hb.
Qed.

(** X10. Process on a [queued] or [failed] batch whose stored payload is empty
    or null marks it [failed], in both pipelines; it returns normally and
    neither deletes nor inserts an item. *)
Theorem process_empty_payload_fails_batch (id : uuid) (b : Batch) :
  status b = queued ∨ status b = failed →
  default [] (request_payload b) = [] →
  (∀ d : Store AddressValidationItem,
     batches d !! id = Some b →
     validate_addresses_batch id d
     = (Returned tt, with_status id failed d, [with_status id failed d]))
  ∧ (∀ d : Store AddressRecognitionItem,
       batches d !! id = Some b →
       recognize_addresses_batch id d
       = (Returned tt, with_status id failed d, [with_status id failed d])).
Proof.
  intros Hs Hp. split; intros d Hb.
  - rewrite validate_addresses_batch_run, Hb, Hp.
    by destruct Hs as [-> | ->].
  - rewrite recognize_addresses_batch_run, Hb, Hp.
    by destruct Hs as [-> | ->].
Qed.

Lemma process_empty_payload_fails_batch_witness :
  (∀ d : Store AddressValidationItem,
     batches d !! 1%N = Some {| status := queued; request_payload := None |} →
     validate_addresses_batch 1 d
     = (Returned tt, with_status 1 failed d, [with_status 1 failed d]))
  ∧ (∀ d : Store AddressRecognitionItem,
       batches d !! 1%N = Some {| status := queued; request_payload := None |} →
       recognize_addresses_batch 1 d
       = (Returned tt, with_status 1 failed d, [with_status 1 failed d])).
Proof.
  apply (process_empty_payload_fails_batch 1 {| status := queued; request_payload := None |});
    [by left | reflexivity].
Defined.

End RequeueDelete.

(** ** The recognition pipeline from queue to results *)

Section RecognitionLifecycle.
Import AddressRecognitionNormalize AddressRecognitionService AddressesAPI.

Lemma opt_str_field_recognized (d : dict) k :
  k ≠ ARI →
  opt_str_field (_recognize_one d) k
  = (λ o : option string, recognized_string k <$> o) <$> opt_str_field d k.
Proof.
  intros Hk. unfold opt_str_field. rewrite lookup_recognize_one.
  rewrite (bool_decide_eq_false_2 (k = ARI) Hk).
  destruct (d !! k) as [[| | |s| |]|]; try done.
  unfold recognize_value, recognized_string. unfold ARI in Hk.
  rewrite (bool_decide_eq_false_2 (k = "address_residential_indicator") Hk).
  repeat case_bool_decide; try done. congruence.
Qed.

Lemma postal_field_recognized (d : dict) :
  postal_field (_recognize_one d) "postal_code"
  = recognized_postal <$> postal_field d "postal_code".
Proof.
  unfold postal_field. rewrite lookup_recognize_one.
  rewrite (bool_decide_eq_false_2 ("postal_code" = ARI)) by done.
  by destruct (d !! "postal_code") as [[| | |s| |]|].
Qed.

Lemma opt_indicator_field_recognized (d : dict) o :
  opt_indicator_field d ARI = Some o →
  opt_indicator_field (_recognize_one d) ARI = Some (Some (default "unknown" o)).
Proof.
  unfold opt_indicator_field. rewrite lookup_recognize_one.
  rewrite (bool_decide_eq_true_2 (ARI = ARI)) by done.
  destruct (d !! ARI) as [[| | |s| |]|]; try done.
  - by intros [= <-].
  - destruct (in_indicator_set s) eqn:Hs; [|done]. intros [= <-].
    rewrite recognize_value_indicator, (canonical_indicator_fixed s Hs). cbn.
    by rewrite Hs.
  - by intros [= <-].
Qed.

(** Validation of a recognized record, from validation of the record. *)
Lemma PartialAddressOut_validate_recognized (d : dict) (p : PartialAddressOut) :
  PartialAddressOut_model_validate (VDict d) = Some p →
  PartialAddressOut_model_validate (VDict (_recognize_one d)) = Some (recognized_partial p).
Proof.
  unfold PartialAddressOut_model_validate. intros Hv.
  repeat (apply bind_Some in Hv as (? & ? & Hv)). injection Hv as <-.
  rewrite !opt_str_field_recognized by done.
  rewrite postal_field_recognized.
  repeat match goal with
         | Hf : opt_str_field d _ = Some _ |- _ => rewrite Hf; clear Hf
         | Hf : postal_field d _ = Some _ |- _ => rewrite Hf; clear Hf
         | Hf : opt_indicator_field d _ = Some _ |- _ =>
             rewrite (opt_indicator_field_recognized d _ Hf); clear Hf
         end.
  reflexivity.
Qed.

(** X20. Recognition never leaves the partial schema: when a record validates
    as a [PartialAddressOut], so does its recognized form, and field by field
    it is the trimmed, case-mapped original, with the indicator filled in. *)
Theorem recognized_fits_partial_schema (d : dict) (p : PartialAddressOut) :
  PartialAddressOut_model_validate (VDict d) = Some p →
  PartialAddressOut_model_validate (VDict (_recognize_one d)) = Some (recognized_partial p).
Proof. exact (PartialAddressOut_validate_recognized d p). Qed.

Lemma recognized_fits_partial_schema_witness :
  let d : dict := {[ "city_locality" := VStr " anytown "; "email" := VStr "A@B.C" ]} in
  let p := {| pa_name := None; pa_phone := None; pa_email := Some "A@B.C";
              pa_company_name := None;
              pa_address_line1 := None; pa_address_line2 := None; pa_address_line3 := None;
              pa_city_locality := Some " anytown "; pa_state_province := None;
              pa_postal_code := PostalNone; pa_country_code := None;
              pa_address_residential_indicator := None |} in
  PartialAddressOut_model_validate (VDict d) = Some p
  ∧ PartialAddressOut_model_validate (VDict (_recognize_one d)) = Some (recognized_partial p).
Proof.
  assert (PartialAddressOut_model_validate
            (VDict {[ "city_locality" := VStr " anytown "; "email" := VStr "A@B.C" ]})
          = Some {| pa_name := None; pa_phone := None; pa_email := Some "A@B.C";
                    pa_company_name := None;
                    pa_address_line1 := None; pa_address_line2 := None;
                    pa_address_line3 := None;
                    pa_city_locality := Some " anytown "; pa_state_province := None;
                    pa_postal_code := PostalNone; pa_country_code := None;
                    pa_address_residential_indicator := None |}) as Hv by (by vm_compute).
  split; [exact Hv|].
  exact (recognized_fits_partial_schema _ _ Hv).
Defined.

Ltac dump_lookups :=
  repeat first [ rewrite lookup_insert_eq
               | rewrite lookup_insert_ne by done
               | rewrite lookup_empty ].

Lemma known_values_round_trip kv :
  opt_indicator_ok (kv_address_residential_indicator kv) = true →
  AddressRecognizeKnownValues_model_validate
    (VDict (AddressRecognizeKnownValues_model_dump kv)) = Some kv.
Proof.
  destruct kv as [n a1 a2 a3 ci st po co ari]. cbn [kv_address_residential_indicator].
  intros Hari.
  unfold AddressRecognizeKnownValues_model_validate, AddressRecognizeKnownValues_model_dump,
    opt_str_field, postal_field, opt_indicator_field.
  cbn [kv_name kv_address_line1 kv_address_line2 kv_address_line3 kv_city_locality
       kv_state_province kv_postal_code kv_country_code kv_address_residential_indicator].
  dump_lookups.
  destruct ari as [ari|]; cbn in Hari; cbn [dump_opt_str]; rewrite ?Hari;
    by destruct n, a1, a2, a3, ci, st, po, co.
Qed.

Lemma known_values_as_partial kv :
  opt_indicator_ok (kv_address_residential_indicator kv) = true →
  PartialAddressOut_model_validate (VDict (AddressRecognizeKnownValues_model_dump kv))
  = Some (partial_of_known kv).
Proof.
  destruct kv as [n a1 a2 a3 ci st po co ari]. cbn [kv_address_residential_indicator].
  intros Hari.
  unfold PartialAddressOut_model_validate, AddressRecognizeKnownValues_model_dump,
    partial_of_known, opt_str_field, postal_field, opt_indicator_field.
  cbn [kv_name kv_address_line1 kv_address_line2 kv_address_line3 kv_city_locality
       kv_state_province kv_postal_code kv_country_code kv_address_residential_indicator].
  dump_lookups.
  destruct ari as [ari|]; cbn in Hari; cbn [dump_opt_str]; rewrite ?Hari;
    by destruct n, a1, a2, a3, ci, st, po, co.
Qed.

(** Validation of the dump of an [AddressRecognizeIn]. *)
Lemma AddressRecognizeIn_validate_dump (a : AddressRecognizeIn) :
  AddressRecognizeIn_ok a = true →
  AddressRecognizeIn_model_validate (VDict (AddressRecognizeIn_model_dump a)) = Some a.
Proof.
  destruct a as [t addr]. unfold AddressRecognizeIn_ok. cbn [text address].
  intros [Ht Haddr]%andb_true_iff.
  unfold AddressRecognizeIn_model_validate, AddressRecognizeIn_model_dump, req_str_field.
  cbn [text address]. dump_lookups. rewrite Ht. cbn.
  destruct addr as [kv|]; [|done].
  by rewrite (known_values_round_trip kv Haddr).
Qed.

(** X21. Dumping an [AddressRecognizeIn] and validating the dump gives the
    instance back, so a payload queued from the endpoint is read by the
    worker as it was submitted. *)
Theorem recognize_in_round_trip (a : AddressRecognizeIn) :
  AddressRecognizeIn_ok a = true →
  AddressRecognizeIn_model_validate (VDict (AddressRecognizeIn_model_dump a)) = Some a.
Proof. exact (AddressRecognizeIn_validate_dump a). Qed.

Lemma recognize_in_round_trip_witness :
  let a := {| text := "1 Main St, Anytown"; address := None |} in
  AddressRecognizeIn_ok a = true
  ∧ AddressRecognizeIn_model_validate (VDict (AddressRecognizeIn_model_dump a)) = Some a.
Proof.
  split; [reflexivity|].
  apply (recognize_in_round_trip {| text := "1 Main St, Anytown"; address := None |}).
  reflexivity.
Defined.

Lemma get_or_empty_dict (blob : dict) key (d : dict) :
  blob !! key = Some (VDict d) → get_or_empty blob key = VDict d.
Proof.
  intros Hk. unfold get_or_empty. rewrite Hk. cbn.
  case_bool_decide as Hd; [by subst|done].
Qed.

Lemma original_of_as_partial a :
  AddressRecognizeIn_ok a = true →
  PartialAddressOut_model_validate (VDict (original_of a)) = Some (original_partial a).
Proof.
  unfold AddressRecognizeIn_ok, original_of, original_partial.
  intros [_ Haddr]%andb_true_iff. destruct (address a) as [kv|]; [|done].
  by apply known_values_as_partial.
Qed.

Lemma recognition_result_of_row_item_for id a :
  AddressRecognizeIn_ok a = true →
  recognition_result_of_row (item_for id (original_of a)) = Some (recognition_result_for a).
Proof.
  intros Hok. unfold recognition_result_of_row, item_for. cbn [ri_recognized].
  rewrite (get_or_empty_dict _ "original_address" (original_of a)) by done.
  rewrite (get_or_empty_dict _ "recognized_address" (_recognize_one (original_of a)))
    by done.
  unfold AddressRecognizeResultOut_init, PartialAddressOut_field.
  pose proof (original_of_as_partial a Hok) as Ho.
  rewrite Ho, (PartialAddressOut_validate_recognized _ _ Ho). done.
Qed.

Lemma validate_all_recognition_dumps payload :
  Forall (λ a, AddressRecognizeIn_ok a = true) payload →
  validate_all AddressRecognizeIn_model_validate (recognition_dumps payload) = Some payload.
Proof.
  induction 1 as [|a payload Ha _ IH]; [done|].
  unfold recognition_dumps. rewrite fmap_cons. cbn [validate_all].
  rewrite (AddressRecognizeIn_validate_dump a Ha). cbn.
  fold (recognition_dumps payload). by rewrite IH.
Qed.

(** The run of the recognition job that regenerates the items. *)
Lemma recognition_job_regenerates id (d : Store AddressRecognitionItem) b addresses :
  batches d !! id = Some b →
  status b = queued ∨ status b = failed →
  validate_all AddressRecognizeIn_model_validate (default [] (request_payload b))
  = Some addresses →
  addresses ≠ [] →
  recognize_addresses_batch id d
  = let d' := regenerated id (item_for id <$> (original_of <$> addresses)) d in
    (Returned tt, d', [with_status id processing d; d']).
Proof.
  intros Hb Hs Hv Hne. rewrite recognize_addresses_batch_run, Hb.
  assert (bool_decide (status b = processing) || bool_decide (status b = completed) = false)
    as -> by (by destruct Hs as [-> | ->]).
  destruct (default [] (request_payload b)) as [|a rest].
  { cbn in Hv. by injection Hv as <-. }
  by rewrite Hv.
Qed.

(** X22. The recognition pipeline from queue to results. A payload queued from
    the endpoint has no results until a worker has run; one run of the job
    marks the batch [completed] and stores one item per record; after that
    the results endpoint never fails: it returns one result per record, with
    the known values as they were submitted and their recognized form. *)
Theorem recognition_queue_to_results (new_id : uuid) (payload : list AddressRecognizeIn)
    (d : Store AddressRecognitionItem)
    (by_created_at : list AddressRecognitionItem → list AddressRecognitionItem) :
  rearranges by_created_at →
  batches d !! new_id = None →
  items_of new_id d = [] →
  Forall (λ a, AddressRecognizeIn_ok a = true) payload →
  payload ≠ [] →
  let queued_db :=
    job_db (in_new_session (AddressRecognitionCalls.create_queued_batch new_id payload) d) in
  let run := recognize_addresses_batch new_id queued_db in
  get_recognition_results by_created_at new_id queued_db
  = Raised (HTTPException 404 "recognition_id not found or empty")
  ∧ job_outcome run = Returned tt
  ∧ batches (job_db run) !! new_id
    = Some {| status := completed; request_payload := Some (recognition_dumps payload) |}
  ∧ items_of new_id (job_db run) = (λ a, item_for new_id (original_of a)) <$> payload
  ∧ ∃ payload', payload' ≡ₚ payload
      ∧ get_recognition_results by_created_at new_id (job_db run)
        = Returned (recognition_result_for <$> payload').
Proof.
  intros Hrows Hfresh Horphan Hok Hne queued_db run. subst queued_db run.
  assert (in_new_session (AddressRecognitionCalls.create_queued_batch new_id payload) d
          = let d' := with_batch new_id
                        {| status := queued;
                           request_payload := Some (recognition_dumps payload) |} d in
            (Returned new_id, d', [d'])) as ->.
  { unfold AddressRecognitionCalls.create_queued_batch. run_op. by rewrite Hfresh. }
  cbv zeta. unfold job_db, job_outcome. cbn [fst snd].
  set (b := {| status := queued; request_payload := Some (recognition_dumps payload) |}).
  set (d1 := with_batch new_id b d).
  assert (batches d1 !! new_id = Some b) as Hb.
  { unfold d1, with_batch. cbn [batches]. by rewrite lookup_insert_eq. }
  assert (recognize_addresses_batch new_id d1
          = (Returned tt,
             regenerated new_id (item_for new_id <$> (original_of <$> payload)) d1,
             [with_status new_id processing d1;
              regenerated new_id (item_for new_id <$> (original_of <$> payload)) d1])) as ->.
  { apply (recognition_job_regenerates new_id d1 b payload Hb); [by left| |done].
    cbn [request_payload default]. by apply validate_all_recognition_dumps. }
  cbn [fst snd].
  assert (items_of new_id
            (regenerated new_id (item_for new_id <$> (original_of <$> payload)) d1)
          = (λ a, item_for new_id (original_of a)) <$> payload) as Hitems.
  { rewrite items_of_regenerated by done. by rewrite <- list_fmap_compose. }
  split.
  { unfold get_recognition_results.
    change (items_of new_id d1) with (items_of new_id d).
    by rewrite Horphan, (rearranges_nil by_created_at Hrows). }
  split; [done|]. split; [by rewrite (lookup_regenerated new_id _ d1 b Hb)|].
  split; [exact Hitems|].
  destruct (rearranges_fmap by_created_at (λ a, item_for new_id (original_of a)) payload
              Hrows) as (payload' & Hp' & Hq).
  exists payload'. split; [exact Hp'|].
  assert (Forall (λ a, AddressRecognizeIn_ok a = true) payload') as Hok'
    by (by rewrite Hp').
  unfold get_recognition_results. rewrite Hitems, Hq.
  assert (mapM recognition_result_of_row ((λ a, item_for new_id (original_of a)) <$> payload')
          = Some (recognition_result_for <$> payload')) as Hm.
  { clear -Hok'. induction Hok' as [|a payload' Ha _ IH]; [done|].
    rewrite !fmap_cons. cbn [mapM].
    by rewrite (recognition_result_of_row_item_for new_id a Ha), IH. }
  destruct payload' as [|a0 rest].
  { apply Permutation_nil_l in Hp'. done. }
  rewrite fmap_cons in Hm |- *. cbv beta iota zeta. by rewrite Hm.
Qed.

Lemma recognition_queue_to_results_witness :
  let payload := [ {| text := "1 Main St, Anytown"; address := None |} ] in
  let queued_db :=
    job_db (in_new_session (AddressRecognitionCalls.create_queued_batch 1 payload)
              (empty_db : Store AddressRecognitionItem)) in
  let run := recognize_addresses_batch 1 queued_db in
  get_recognition_results (λ rows, rows) 1 queued_db
  = Raised (HTTPException 404 "recognition_id not found or empty")
  ∧ job_outcome run = Returned tt
  ∧ batches (job_db run) !! 1%N
    = Some {| status := completed; request_payload := Some (recognition_dumps payload) |}
  ∧ items_of 1 (job_db run) = (λ a, item_for 1 (original_of a)) <$> payload
  ∧ ∃ payload', payload' ≡ₚ payload
      ∧ get_recognition_results (λ rows, rows) 1 (job_db run)
        = Returned (recognition_result_for <$> payload').
Proof.
  apply (recognition_queue_to_results 1
           [ {| text := "1 Main St, Anytown"; address := None |} ] empty_db (λ rows, rows));
    [intros rows; reflexivity | reflexivity | reflexivity | by repeat constructor
    | discriminate].
Defined.

(** A dump of an [AddressRecognizeIn] is no [AddressOut]: it has no
    [address_line1]. *)
Lemma recognize_in_dump_is_no_address a :
  AddressIn_model_validate (VDict (AddressRecognizeIn_model_dump a)) = None.
Proof.
  unfold AddressIn_model_validate, AddressRecognizeIn_model_dump.
  by destruct (address a).
Qed.

(** X23. The recognize endpoint in its two modes. Asynchronous: it answers 202
    with an empty body and the new id, stores one [queued] batch with the
    dumped payload and enqueues exactly one recognition job. Synchronous: on
    every payload that is not empty it raises the [ValidationError] of
    [AddressOut] and leaves the database and the queue as they were; on the
    empty payload it answers 200 with an empty body and stores a [completed]
    batch without items. *)
Theorem recognize_addresses_modes (new_id : uuid) (app : RecognitionApp) :
  batches (rec_db app) !! new_id = None →
  (∀ payload,
     recognize_addresses new_id payload true app
     = (Returned {| status_code := 202; header_batch_id := Some new_id; body := [] |},
        {| rec_db := with_batch new_id
                       {| status := queued;
                          request_payload := Some (recognition_dumps payload) |}
                       (rec_db app);
           rec_redis := rec_redis app ++ [("recognize_addresses_batch", new_id)] |}))
  ∧ (∀ a payload,
       recognize_addresses new_id (a :: payload) false app
       = (Raised ValidationError,
          {| rec_db := rec_db app; rec_redis := rec_redis app |}))
  ∧ recognize_addresses new_id [] false app
    = (Returned {| status_code := 200; header_batch_id := Some new_id; body := [] |},
       {| rec_db := with_batch new_id
                      {| status := completed; request_payload := Some [] |} (rec_db app);
          rec_redis := rec_redis app |}).
Proof.
  intros Hfresh. split; [|split].
  - intros payload. unfold recognize_addresses, AddressRecognitionCalls.create_queued_batch.
    run_op. by rewrite Hfresh.
  - intros a payload.
    unfold recognize_addresses, AddressRecognitionCalls.recognize_and_store,
      AddressRecognitionCalls.recognize_one.
    cbn [for_each_collect]. unfold add_item. run_op. rewrite Hfresh.
    by rewrite (recognize_in_dump_is_no_address a).
  - unfold recognize_addresses, AddressRecognitionCalls.recognize_and_store.
    cbn [for_each_collect]. run_op. by rewrite Hfresh.
Qed.

Lemma recognize_addresses_modes_witness :
  let app := {| rec_db := empty_db; rec_redis := [] |} in
  (∀ payload,
     recognize_addresses 1 payload true app
     = (Returned {| status_code := 202; header_batch_id := Some 1%N; body := [] |},
        {| rec_db := with_batch 1
                       {| status := queued;
                          request_payload := Some (recognition_dumps payload) |}
                       (rec_db app);
           rec_redis := rec_redis app ++ [("recognize_addresses_batch", 1%N)] |}))
  ∧ (∀ a payload,
       recognize_addresses 1 (a :: payload) false app
       = (Raised ValidationError,
          {| rec_db := rec_db app; rec_redis := rec_redis app |}))
  ∧ recognize_addresses 1 [] false app
    = (Returned {| status_code := 200; header_batch_id := Some 1%N; body := [] |},
       {| rec_db := with_batch 1
                      {| status := completed; request_payload := Some [] |} (rec_db app);
          rec_redis := rec_redis app |}).
Proof.
  apply (recognize_addresses_modes 1 {| rec_db := empty_db; rec_redis := [] |}).
  reflexivity.
Defined.

(** X25. [get_results] of the recognition service never returns a result: it
    returns the empty list for a batch without items, and raises the
    [ValidationError] of the response schema as soon as there is a row. *)
Theorem get_results_never_returns_a_result
    (by_created_at : list AddressRecognitionItem → list AddressRecognitionItem)
    (batch_id : uuid) (d : Store AddressRecognitionItem) :
  rearranges by_created_at →
  job_outcome (in_new_session (AddressRecognitionCalls.get_results by_created_at batch_id) d)
  = match items_of batch_id d with
    | [] => Returned []
    | _ => Raised ValidationError
    end.
Proof.
  intros Hrows. unfold AddressRecognitionCalls.get_results, in_new_session, open_session,
    job_outcome. cbn [fst snd pending].
  pose proof (Hrows (items_of batch_id d)) as Hperm.
  destruct (items_of batch_id d) as [|r0 rest].
  { apply Permutation_nil_r in Hperm. by rewrite Hperm. }
  destruct (by_created_at (r0 :: rest)) as [|r rows].
  { by apply Permutation_nil_cons in Hperm. }
  assert (AddressRecognitionCalls.result_of_row r = None) as Hnone.
  { unfold AddressRecognitionCalls.result_of_row.
    destruct (AddressIn_model_validate (get_or_empty (ri_recognized r) "original_address"));
      [|done]. cbn.
    by destruct (AddressIn_model_validate _). }
  cbn [mapM]. by rewrite Hnone.
Qed.

Lemma get_results_never_returns_a_result_witness :
  let d : Store AddressRecognitionItem :=
    job_db (recognize_addresses_batch 1
              (one_batch_db 1 queued
                 (Some (recognition_dumps
                          [ {| text := "1 Main St, Anytown"; address := None |} ])))) in
  items_of 1 d ≠ []
  ∧ job_outcome (in_new_session (AddressRecognitionCalls.get_results (λ rows, rows) 1) d)
    = match items_of 1 d with
      | [] => Returned []
      | _ => Raised ValidationError
      end.
Proof.
  split; [by vm_compute|].
  apply (get_results_never_returns_a_result (λ rows, rows) 1). intros rows. reflexivity.
Defined.

(** X26. A recognition batch whose stored payload does not validate is stuck:
    the job raises the [ValidationError] after it has committed [processing],
    the items are as before, and every later run of the job finds
    [processing] and does nothing. *)
Theorem recognition_malformed_payload_sticks (id : uuid)
    (d : Store AddressRecognitionItem) (b : Batch) :
  batches d !! id = Some b →
  status b = queued ∨ status b = failed →
  default [] (request_payload b) ≠ [] →
  validate_all AddressRecognizeIn_model_validate (default [] (request_payload b)) = None →
  let stuck := with_status id processing d in
  recognize_addresses_batch id d = (Raised ValidationError, stuck, [stuck])
  ∧ items stuck = items d
  ∧ recognize_addresses_batch id stuck = (Returned tt, stuck, []).
Proof.
  intros Hb Hs Hp Hv stuck. subst stuck. split; [|split; [done|]].
  - rewrite recognize_addresses_batch_run, Hb.
    assert (bool_decide (status b = processing) || bool_decide (status b = completed)
            = false) as -> by (by destruct Hs as [-> | ->]).
    destruct (default [] (request_payload b)) as [|a rest]; [done|]. by rewrite Hv.
  - by rewrite recognize_addresses_batch_run, (lookup_with_status id processing d b Hb).
Qed.

Lemma recognition_malformed_payload_sticks_witness :
  let d : Store AddressRecognitionItem := one_batch_db 1 queued (Some [VDict ∅]) in
  let stuck := with_status 1 processing d in
  recognize_addresses_batch 1 d = (Raised ValidationError, stuck, [stuck])
  ∧ items stuck = items d
  ∧ recognize_addresses_batch 1 stuck = (Returned tt, stuck, []).
Proof.
  apply (recognition_malformed_payload_sticks 1 (one_batch_db 1 queued (Some [VDict ∅]))
           {| status := queued; request_payload := Some [VDict ∅] |});
    [reflexivity | by left | discriminate | reflexivity].
Defined.

End RecognitionLifecycle.

(** ** The synchronous creates at work *)

Lemma validate_and_store_persists_witness :
  let run := in_new_session (AddressValidationService.validate_and_store 1 [sample_address])
               (empty_db : Store AddressValidationItem) in
  job_outcome run = Returned (1%N, sample_results)
  ∧ batches (job_db run)
    = <[1%N := {| status := completed;
                  request_payload := Some ((λ a, VDict (model_dump a)) <$> [sample_address]) |}]>
        (batches (empty_db : Store AddressValidationItem))
  ∧ items (job_db run)
    = items (empty_db : Store AddressValidationItem)
      ++ (AddressValidationService.item_for 1 <$> [sample_address])
  ∧ job_history run = [job_db run]
  ∧ length sample_results = length [sample_address]
  ∧ vr_original_address <$> sample_results = [sample_address].
Proof.
  apply (validate_and_store_persists 1 [sample_address] empty_db sample_results);
    [reflexivity | by repeat constructor | vm_compute; reflexivity].
Defined.

Lemma recognize_and_store_raises_witness :
  in_new_session (AddressRecognitionService.recognize_and_store 1 [sample_address])
    (empty_db : Store AddressRecognitionItem)
  = (Raised ValidationError, empty_db, []).
Proof.
  apply (recognize_and_store_raises 1 sample_address [] empty_db). reflexivity.
Defined.
